(** * Portfolio generator: the editor, the record store and the renderer

    A shallow embedding of [src/App.tsx]: the form state and its event
    handlers ([PortfolioForm]), the application state and its handlers
    ([App]), the validation the browser applies to the form before it
    submits, the element trees built by [ProfileCard], [Template1] and
    [Template2], and the controls of the form, followed by the properties
    proved about them. *)

From Stdlib Require Import String Ascii.
From stdpp Require Import base numbers option list gmap pretty.

Local Open Scope Z_scope.

(** ** JavaScript strings

    A string is its sequence of UTF-16 code units.  [str] embeds the ASCII
    literals of the source. *)

Abbreviation jsstring := (list N).

Definition str (s : string) : jsstring :=
  map N_of_ascii (list_ascii_of_string s).

(** Code units removed by [String.prototype.trim]: the WhiteSpace and
    LineTerminator productions of ECMAScript. *)
Definition isWhiteSpace (c : N) : bool :=
  ((9 <=? c) && (c <=? 13) || (c =? 32) || (c =? 160) || (c =? 5760)
   || (8192 <=? c) && (c <=? 8202) || (c =? 8232) || (c =? 8233)
   || (c =? 8239) || (c =? 8287) || (c =? 12288) || (c =? 65279))%N.

Fixpoint trimStart (s : jsstring) : jsstring :=
  match s with
  | c :: s' => if isWhiteSpace c then trimStart s' else s
  | [] => []
  end.

Definition trimEnd (s : jsstring) : jsstring :=
  reverse (trimStart (reverse s)).

Definition trim (s : jsstring) : jsstring := trimEnd (trimStart s).

(** [s.split(sep)] for a separator of one code unit: the pieces between the
    occurrences of [sep]; the empty string gives one empty piece. *)
Fixpoint split (sep : N) (s : jsstring) : list jsstring :=
  match s with
  | [] => [[]]
  | c :: s' =>
      if (c =? sep)%N then [] :: split sep s'
      else match split sep s' with
           | p :: ps => (c :: p) :: ps
           | [] => [[c]]
           end
  end.

(** [a.join(sep)] on an array of strings. *)
Fixpoint join (sep : N) (a : list jsstring) : jsstring :=
  match a with
  | [] => []
  | [p] => p
  | p :: a' => p ++ sep :: join sep a'
  end.

Definition comma : N := 44%N.

(** The same two operations as the specification words them: [pieces] are
    what lies between the commas of [s], and [t] is [s] without its leading
    and trailing white space. *)
Definition SplitOn (sep : N) (s : jsstring) (pieces : list jsstring) : Prop :=
  pieces ≠ [] ∧ Forall (λ p, sep ∉ p) pieces ∧ join sep pieces = s.

Definition Trimmed (s t : jsstring) : Prop :=
  (∃ l r, s = l ++ t ++ r
          ∧ Forall (λ c, isWhiteSpace c = true) l
          ∧ Forall (λ c, isWhiteSpace c = true) r)
  ∧ (∀ c, head t = Some c → isWhiteSpace c = false)
  ∧ (∀ c, last t = Some c → isWhiteSpace c = false).

(** What every string kept by the skills parse is: non-empty, free of commas
    and already trimmed. *)
Definition skill_entry (p : jsstring) : Prop :=
  p ≠ [] ∧ (comma ∉ p) ∧ trim p = p.

(** ** Sub-records and arrays

    The entries of the three lists are plain objects.  [addEntry] creates
    them as [{}] and [handleArrayChange] adds one key at a time, so an entry
    is a finite map from the keys of [Experience], [Education] and [Project]
    to strings. *)

Module Key.
Inductive t :=
| title | company | dates | description
| degree | institution
| name | technologies | projectUrl | githubUrl.

Definition to_nat (k : t) : nat :=
  match k with
  | title => 0 | company => 1 | dates => 2 | description => 3
  | degree => 4 | institution => 5
  | name => 6 | technologies => 7 | projectUrl => 8 | githubUrl => 9
  end%nat.

Definition of_nat (n : nat) : t :=
  match n with
  | 0 => title | 1 => company | 2 => dates | 3 => description
  | 4 => degree | 5 => institution
  | 6 => name | 7 => technologies | 8 => projectUrl | _ => githubUrl
  end%nat.
End Key.

#[global] Instance key_eq_dec : EqDecision Key.t.
Proof. solve_decision. Defined.

#[global] Instance key_countable : Countable Key.t.
Proof.
  apply (inj_countable' Key.to_nat Key.of_nat). by intros [].
Defined.

Abbreviation object := (gmap Key.t (list N)).

(** What an array element evaluates to: an entry, or [undefined]. *)
Inductive value :=
| undefined
| obj (o : object).

(** An array is its sequence of slots; [None] is an empty slot (a hole of a
    sparse array), which reads as [undefined] but is skipped by [filter] and
    [map]. *)
Abbreviation array := (list (option value)).

(** [{...v}]: the own properties of [v]; spreading [undefined] gives [{}]. *)
Definition props (v : value) : object :=
  match v with
  | obj o => o
  | undefined => ∅
  end.

(** [a[index]], read. *)
Definition at_index (a : array) (index : Z) : value :=
  if index <? 0 then undefined
  else default undefined (mjoin (a !! Z.to_nat index)).

(** [[...a]]: the iterator visits every index below the length, and a hole
    yields [undefined]. *)
Definition spread (a : array) : array :=
  map (λ slot, Some (default undefined slot)) a.

(** The largest array index, 2^32 - 2: an array has at most 2^32 - 1
    slots. *)
Definition maxIndex : Z := 4294967294.

(** [a[index] = v].  Below the length the slot is replaced (an array has at
    most 2^32 - 1 slots, so a position below its length is an array index).
    From the length up to [maxIndex] the array grows to [index + 1], the
    slots in between staying empty.  A negative [index], or one above
    [maxIndex], is not an array index: the assignment creates a property
    named by it, which [length], spread, [filter] and [map] do not see, and
    the slots are as before. *)
Definition assign (a : array) (index : Z) (v : value) : array :=
  if index <? 0 then a
  else
    let i := Z.to_nat index in
    if (i <? length a)%nat then <[i := Some v]> a
    else if index <=? maxIndex then
      a ++ replicate (i - length a) None ++ [Some v]
    else a.

(** [a.filter((x, i) => keep x i)]: holes are not visited, the kept elements
    are packed in order. *)
Fixpoint filter_from (i : nat) (keep : value → nat → bool) (a : array) : array :=
  match a with
  | [] => []
  | None :: a' => filter_from (S i) keep a'
  | Some x :: a' =>
      if keep x i then Some x :: filter_from (S i) keep a'
      else filter_from (S i) keep a'
  end.

Definition filter_array (keep : value → nat → bool) (a : array) : array :=
  filter_from 0 keep a.

(** An array without holes, as the element types [Experience[]],
    [Education[]] and [Project[]] intend. *)
Definition dense (a : array) : Prop := Forall is_Some a.

(** ** The portfolio data

    [PortfolioData] and the form state differ in the type of [skills] only:
    a string in the form, an array of strings once submitted. *)

Record Portfolio (S : Type) := mkPortfolio {
  name : jsstring;
  title : jsstring;
  email : jsstring;
  phone : jsstring;
  location : jsstring;
  bio : jsstring;
  profilePicture : jsstring;
  linkedin : jsstring;
  github : jsstring;
  website : jsstring;
  twitter : jsstring;
  skills : S;
  experience : array;
  education : array;
  projects : array;
}.

Arguments mkPortfolio {S}.
Arguments name {S}.
Arguments title {S}.
Arguments email {S}.
Arguments phone {S}.
Arguments location {S}.
Arguments bio {S}.
Arguments profilePicture {S}.
Arguments linkedin {S}.
Arguments github {S}.
Arguments website {S}.
Arguments twitter {S}.
Arguments skills {S}.
Arguments experience {S}.
Arguments education {S}.
Arguments projects {S}.

Abbreviation PortfolioData := (Portfolio (list (list N))).
Abbreviation FormData := (Portfolio (list N)).

(** The [field] argument of the list handlers. *)
Module Kind.
Inductive t := experience | education | projects.
End Kind.

#[global] Instance kind_eq_dec : EqDecision Kind.t.
Proof. solve_decision. Defined.

(** The [name] attribute of the inputs wired to [handleChange]. *)
Module Input.
Inductive t :=
| name | title | email | phone | location | bio | profilePicture
| linkedin | github | website | twitter | skills.
End Input.

#[global] Instance input_eq_dec : EqDecision Input.t.
Proof. solve_decision. Defined.

(** [data[field]] and [{...data, [field]: a}]. *)
Definition entries {S} (field : Kind.t) (data : Portfolio S) : array :=
  match field with
  | Kind.experience => experience data
  | Kind.education => education data
  | Kind.projects => projects data
  end.

Definition with_entries {S} (field : Kind.t) (a : array) (data : Portfolio S)
  : Portfolio S :=
  match field with
  | Kind.experience =>
      mkPortfolio (name data) (title data) (email data) (phone data)
        (location data) (bio data) (profilePicture data) (linkedin data)
        (github data) (website data) (twitter data) (skills data)
        a (education data) (projects data)
  | Kind.education =>
      mkPortfolio (name data) (title data) (email data) (phone data)
        (location data) (bio data) (profilePicture data) (linkedin data)
        (github data) (website data) (twitter data) (skills data)
        (experience data) a (projects data)
  | Kind.projects =>
      mkPortfolio (name data) (title data) (email data) (phone data)
        (location data) (bio data) (profilePicture data) (linkedin data)
        (github data) (website data) (twitter data) (skills data)
        (experience data) (education data) a
  end.

(** [{...data, skills: s}], which may change the type of [skills]. *)
Definition with_skills {S T} (s : T) (data : Portfolio S) : Portfolio T :=
  mkPortfolio (name data) (title data) (email data) (phone data)
    (location data) (bio data) (profilePicture data) (linkedin data)
    (github data) (website data) (twitter data) s
    (experience data) (education data) (projects data).

(** [data[input]] and [{...data, [input]: v}] on the form state. *)
Definition scalar (input : Input.t) (data : FormData) : jsstring :=
  match input with
  | Input.name => name data | Input.title => title data
  | Input.email => email data | Input.phone => phone data
  | Input.location => location data | Input.bio => bio data
  | Input.profilePicture => profilePicture data
  | Input.linkedin => linkedin data | Input.github => github data
  | Input.website => website data | Input.twitter => twitter data
  | Input.skills => skills data
  end.

Definition with_scalar (input : Input.t) (v : jsstring) (data : FormData)
  : FormData :=
  let pick (i : Input.t) (old : jsstring) :=
    if decide (i = input) then v else old in
  mkPortfolio
    (pick Input.name (name data)) (pick Input.title (title data))
    (pick Input.email (email data)) (pick Input.phone (phone data))
    (pick Input.location (location data)) (pick Input.bio (bio data))
    (pick Input.profilePicture (profilePicture data))
    (pick Input.linkedin (linkedin data)) (pick Input.github (github data))
    (pick Input.website (website data)) (pick Input.twitter (twitter data))
    (pick Input.skills (skills data))
    (experience data) (education data) (projects data).

(** ** The editor: [PortfolioForm] *)

Module PortfolioForm.

(** The initial value of the [formData] state. *)
Definition initial : FormData :=
  mkPortfolio [] [] [] [] [] [] [] [] [] [] [] [] [] [] [].

Definition handleChange (input : Input.t) (value : jsstring)
    (prevData : FormData) : FormData :=
  with_scalar input value prevData.

(** [index] is an integer, as the [map] that renders the inputs passes it. *)
Definition handleArrayChange (index : Z) (field : Kind.t)
    (subField : Key.t) (value : jsstring) (prevData : FormData) : FormData :=
  let newArray := spread (entries field prevData) in
  let newArray :=
    assign newArray index
      (obj (<[subField := value]> (props (at_index newArray index)))) in
  with_entries field newArray prevData.

Definition addEntry (field : Kind.t) (prevData : FormData) : FormData :=
  with_entries field (spread (entries field prevData) ++ [Some (obj ∅)])
    prevData.

Definition removeEntry (field : Kind.t) (index : Z) (prevData : FormData)
  : FormData :=
  with_entries field
    (filter_array (λ _ i, negb (Z.of_nat i =? index))
       (entries field prevData))
    prevData.

Definition parseSkills (s : jsstring) : list jsstring :=
  filter (λ s, s ≠ []) (map trim (split comma s)).

(** The record handed to [onSubmit]. *)
Definition handleSubmit (formData : FormData) : PortfolioData :=
  let parsedSkills := parseSkills (skills formData) in
  with_skills parsedSkills formData.

End PortfolioForm.

(** ** The record store: [App] *)

Module App.

Record State := mkState {
  portfolioData : option PortfolioData;
  selectedTemplate : jsstring;
  showFullPortfolio : bool;
}.

Definition initial : State := mkState None (str "template1") false.

Definition handleSubmit (data : PortfolioData) (s : State) : State :=
  mkState (Some data) (selectedTemplate s) false.

Definition handleCardClick (s : State) : State :=
  mkState (portfolioData s) (selectedTemplate s) true.

Definition handleBackToForm (s : State) : State :=
  mkState None (selectedTemplate s) false.

(** The [onReset] passed to [ProfileCard]: [() => setPortfolioData(null)]. *)
Definition onReset (s : State) : State :=
  mkState None (selectedTemplate s) (showFullPortfolio s).

Definition setSelectedTemplate (template : jsstring) (s : State) : State :=
  mkState (portfolioData s) template (showFullPortfolio s).

(** Which of the three branches of the returned markup is taken: the full
    page, the profile card, or the form. *)
Inductive DisplayMode := EDITING | SUMMARY | FULL.

Definition displayMode (s : State) : DisplayMode :=
  match showFullPortfolio s, portfolioData s with
  | true, Some _ => FULL
  | _, Some _ => SUMMARY
  | _, None => EDITING
  end.

End App.

(** ** Constraint validation

    The [<form>] of [PortfolioForm] has no [noValidate], so the browser
    validates its controls before it fires [submit], and fires nothing when
    one of them fails.  No control is [required] or has a length or pattern
    constraint; the only constraint is the type of an input.  Of the three
    types the form uses, [text] and [tel] accept every value and [email]
    accepts, after sanitization, the empty string and the valid e-mail
    addresses of the HTML Standard. *)

Module InputType.
Inductive t := text | email | tel.
End InputType.

(** ASCII whitespace: TAB, LF, FF, CR and SPACE. *)
Definition isAsciiWhitespace (c : N) : bool :=
  ((c =? 9) || (c =? 10) || (c =? 12) || (c =? 13) || (c =? 32))%N.

Definition isNewline (c : N) : bool := ((c =? 10) || (c =? 13))%N.

Fixpoint stripLeading (s : jsstring) : jsstring :=
  match s with
  | c :: s' => if isAsciiWhitespace c then stripLeading s' else s
  | [] => []
  end.

Definition stripTrailing (s : jsstring) : jsstring :=
  reverse (stripLeading (reverse s)).

(** The value sanitization algorithm of [type=email] (without [multiple]):
    strip newlines, then strip leading and trailing ASCII whitespace.  It
    gives the value of the element from the [value] the component passes. *)
Definition sanitizeEmail (s : jsstring) : jsstring :=
  stripTrailing (stripLeading (filter (λ c, isNewline c = false) s)).

Definition at_sign : N := 64%N.
Definition dot : N := 46%N.
Definition hyphen : N := 45%N.

(** [[a-zA-Z0-9]] *)
Definition isAlnum (c : N) : bool :=
  ((97 <=? c) && (c <=? 122) || (65 <=? c) && (c <=? 90)
   || (48 <=? c) && (c <=? 57))%N.

(** A character of the local part: [[a-zA-Z0-9.!#$%&'*+/=?^_`{|}~-]] *)
Definition isAtext (c : N) : bool :=
  isAlnum c || existsb (N.eqb c) (str ".!#$%&'*+/=?^_`{|}~-").

(** A label of the domain:
    [[a-zA-Z0-9](?:[a-zA-Z0-9-]{0,61}[a-zA-Z0-9])?] *)
Definition isLabel (l : jsstring) : bool :=
  match l with
  | [] => false
  | c :: _ =>
      isAlnum c && isAlnum (List.last l c)
      && forallb (λ c, isAlnum c || (c =? hyphen)%N) l
      && (length l <=? 63)%nat
  end.

(** A valid e-mail address: a non-empty local part, one [@], and labels
    separated by dots. *)
Definition validEmail (s : jsstring) : bool :=
  match split at_sign s with
  | [local; domain] =>
      match local with [] => false | _ => true end
      && forallb isAtext local
      && forallb isLabel (split dot domain)
  | _ => false
  end.

(** An input suffers from a type mismatch when its value is neither empty
    nor valid for its type. *)
Definition typeMismatch (type : InputType.t) (value : jsstring) : bool :=
  match type with
  | InputType.email =>
      match sanitizeEmail value with
      | [] => false
      | v => negb (validEmail v)
      end
  | InputType.text | InputType.tel => false
  end.

(** ** The running application

    The state of [App] together with the state of the mounted
    [PortfolioForm], if any.  The three branches of [App] render different
    components at the same place, so React unmounts the form (dropping its
    [formData]) whenever another branch is taken and mounts a new one, whose
    state is the initial value of [useState], when the form branch is taken
    again. *)

Record System := mkSystem {
  app : App.State;
  form : option FormData;
}.

Definition initialSystem : System :=
  mkSystem App.initial (Some PortfolioForm.initial).

Definition commit (app' : App.State) (form : option FormData) : System :=
  mkSystem app'
    match App.displayMode app' with
    | App.EDITING => Some (default PortfolioForm.initial form)
    | _ => None
    end.

(** The user interactions the markup offers. *)
Inductive Event :=
| Change (input : Input.t) (value : jsstring)
| ArrayChange (index : Z) (field : Kind.t) (subField : Key.t) (value : jsstring)
| AddEntry (field : Kind.t)
| RemoveEntry (field : Kind.t) (index : Z)
| SelectTemplate (template : jsstring)
| Submit
| CardClick
| Reset
| BackToForm.

(** The form renders the inputs and the remove button of an entry through
    [formData[field].map], that is for the indices that hold an entry. *)
Definition rendered (field : Kind.t) (index : Z) (formData : FormData) : bool :=
  (0 <=? index) &&
  match entries field formData !! Z.to_nat index with
  | Some (Some (obj _)) => true
  | _ => false
  end.

Definition radio (template : jsstring) : bool :=
  bool_decide (template = str "template1")
  || bool_decide (template = str "template2").

(** The draft passes validation: its one constrained control, the Email
    input, has no type mismatch. *)
Definition submittable (formData : FormData) : bool :=
  negb (typeMismatch InputType.email (email formData)).

(** One interaction: [None] when the displayed component does not offer it. *)
Definition step (e : Event) (σ : System) : option System :=
  match App.displayMode (app σ), form σ, e with
  | App.EDITING, Some formData, Change input value =>
      Some (mkSystem (app σ)
              (Some (PortfolioForm.handleChange input value formData)))
  | App.EDITING, Some formData, ArrayChange index field subField value =>
      if rendered field index formData then
        Some (mkSystem (app σ)
                (Some (PortfolioForm.handleArrayChange index field subField
                         value formData)))
      else None
  | App.EDITING, Some formData, AddEntry field =>
      Some (mkSystem (app σ) (Some (PortfolioForm.addEntry field formData)))
  | App.EDITING, Some formData, RemoveEntry field index =>
      if rendered field index formData then
        Some (mkSystem (app σ)
                (Some (PortfolioForm.removeEntry field index formData)))
      else None
  | App.EDITING, Some formData, SelectTemplate template =>
      if radio template then
        Some (commit (App.setSelectedTemplate template (app σ)) (form σ))
      else None
  | App.EDITING, Some formData, Submit =>
      if submittable formData then
        Some (commit
                (App.handleSubmit (PortfolioForm.handleSubmit formData)
                   (app σ))
                (form σ))
      else None
  | App.SUMMARY, _, CardClick =>
      Some (commit (App.handleCardClick (app σ)) (form σ))
  | App.SUMMARY, _, Reset =>
      Some (commit (App.onReset (app σ)) (form σ))
  | App.FULL, _, BackToForm =>
      Some (commit (App.handleBackToForm (app σ)) (form σ))
  | _, _, _ => None
  end.

Inductive reachable : System → Prop :=
| reachable_initial : reachable initialSystem
| reachable_step σ e σ' : reachable σ → step e σ = Some σ' → reachable σ'.

Fixpoint run (es : list Event) (σ : System) : option System :=
  match es with
  | [] => Some σ
  | e :: es' => σ' ← step e σ; run es' σ'
  end.

(** The display-mode machine as the specification draws it: submit leads
    from EDITING to SUMMARY, expand from SUMMARY to FULL, reset from SUMMARY
    and from FULL back to EDITING; editing the draft and choosing a template
    stay in EDITING. *)
Definition editing (e : Event) : bool :=
  match e with
  | Change _ _ | ArrayChange _ _ _ _ | AddEntry _ | RemoveEntry _ _
  | SelectTemplate _ => true
  | _ => false
  end.

Inductive transition : App.DisplayMode → Event → App.DisplayMode → Prop :=
| transition_edit e : editing e = true → transition App.EDITING e App.EDITING
| transition_submit : transition App.EDITING Submit App.SUMMARY
| transition_expand : transition App.SUMMARY CardClick App.FULL
| transition_reset : transition App.SUMMARY Reset App.EDITING
| transition_back : transition App.FULL BackToForm App.EDITING.

(** A session that fills in a draft, submits it and opens the full page. *)
Definition session : list Event :=
  [Change Input.name (str "Ada");
   Change Input.skills (str "Rocq, TypeScript");
   AddEntry Kind.experience;
   ArrayChange 0 Kind.experience Key.title (str "Engineer");
   SelectTemplate (str "template2");
   Submit;
   CardClick].

Definition afterSession : System :=
  default initialSystem (run session initialSystem).

(** The form is mounted exactly in display mode EDITING. *)
Definition mounted (σ : System) : Prop :=
  match App.displayMode (app σ) with
  | App.EDITING => is_Some (form σ)
  | _ => form σ = None
  end.

(** ** The renderer

    The element trees returned by the components, without their class
    names.  Every place where the markup interpolates a value of the record
    names that value by a [Ref]. *)

Inductive Ref :=
| Scalar (key : Input.t)
| Skill (index : nat)
| Entry (field : Kind.t) (index : nat) (key : Key.t).

#[local] Set Warnings "-register-all".

(** The elements of the markup other than [<a>] and [<img>]. *)
Module Tag.
Inductive t :=
| div | header | section | h1 | h2 | h3 | p | ul | li | span | button.
End Tag.

Inductive node :=
| Text (s : string)
| Icon (name : string)
| Show (r : Ref) (v : option jsstring)
| Img (r : Ref) (src : jsstring)
| A (r : Ref) (href : jsstring) (children : list node)
| El (tag : Tag.t) (children : list node).

(** Truthiness of a string, and of a property that may be [undefined]. *)
Definition truthy (s : jsstring) : bool :=
  match s with [] => false | _ :: _ => true end.

Definition truthy_prop (v : option jsstring) : bool :=
  match v with Some s => truthy s | None => false end.

(** [{cond && (...)}] *)
Definition when (cond : bool) (children : list node) : list node :=
  if cond then children else [].

(** [a.map((x, i) => f x i)] as children: holes give nothing, and [f] may
    throw (a [TypeError] when it reads a property of [undefined]). *)
Fixpoint map_from {B} (i : nat) (f : value → nat → option B) (a : array)
  : option (list B) :=
  match a with
  | [] => Some []
  | None :: a' => map_from (S i) f a'
  | Some x :: a' =>
      b ← f x i; bs ← map_from (S i) f a'; Some (b :: bs)
  end.

Definition map_array {B} (f : value → nat → option B) (a : array)
  : option (list B) :=
  map_from 0 f a.

(** The body of a [map] callback that reads the properties of its entry. *)
Definition entry (render : nat → object → node) (x : value) (i : nat)
  : option node :=
  match x with
  | obj o => Some (render i o)
  | undefined => None
  end.

(** [data.name ? data.name.charAt(0) : '?'] *)
Definition initialOf (name : jsstring) : jsstring :=
  match name with
  | c :: _ => [c]
  | [] => str "?"
  end.

(** [data.profilePicture || `${placeholder}${initial}`] *)
Definition pictureSrc (placeholder : string) (data : PortfolioData) : jsstring :=
  if truthy (profilePicture data) then profilePicture data
  else str placeholder ++ initialOf (name data).

Definition show (key : Input.t) (v : jsstring) : node :=
  Show (Scalar key) (Some v).

Definition ProfileCard (data : PortfolioData) : node :=
  El Tag.div [
    El Tag.button [Text "Reset"];
    El Tag.div [
      Img (Scalar Input.profilePicture)
        (pictureSrc "https://placehold.co/120x120/E0F2F7/0288D1?text=" data);
      El Tag.h2 [show Input.name (name data)];
      El Tag.p [show Input.title (title data)];
      El Tag.p [show Input.bio (bio data)];
      El Tag.div
        (when (truthy (linkedin data))
           [A (Scalar Input.linkedin) (linkedin data) [Icon "Linkedin"]]
         ++ when (truthy (github data))
              [A (Scalar Input.github) (github data) [Icon "Github"]]
         ++ when (truthy (website data))
              [A (Scalar Input.website) (website data) [Icon "Globe"]]);
      El Tag.p [Text "Click to view full portfolio"]
    ]
  ].

(** The contact list, the same markup in both templates up to class names
    and icon sizes. *)
Definition contact (data : PortfolioData) : node :=
  El Tag.div [
    El Tag.h3 [Icon "Mail"; Text "Contact"];
    El Tag.ul
      (when (truthy (email data))
         [El Tag.li [Icon "Mail"; show Input.email (email data)]]
       ++ when (truthy (phone data))
            [El Tag.li [Icon "Phone"; show Input.phone (phone data)]]
       ++ when (truthy (location data))
            [El Tag.li [Icon "MapPin"; show Input.location (location data)]])
  ].

Definition skillTags (data : PortfolioData) : list node :=
  imap (λ index skill, El Tag.span [Show (Skill index) (Some skill)])
    (skills data).

(** [{data[field] && data[field].length > 0 && (<section>...</section>)}] *)
Definition listSection (heading : string) (field : Kind.t)
    (render : nat → object → node) (data : PortfolioData)
  : option (list node) :=
  if (0 <? length (entries field data))%nat then
    children ← map_array (entry render) (entries field data);
    Some [El Tag.section [El Tag.h2 [Text heading]; El Tag.div children]]
  else Some [].

Definition prop (field : Kind.t) (index : nat) (key : Key.t) (o : object)
  : node :=
  Show (Entry field index key) (o !! key).

(** The project card, the same markup in both templates up to class names. *)
Definition projectCard (index : nat) (project : object) : node :=
  let P := prop Kind.projects index in
  El Tag.div
    ([El Tag.h3 [P Key.name project];
      El Tag.p [P Key.description project]]
     ++ when (truthy_prop (project !! Key.technologies))
          [El Tag.p [El Tag.span [Text "Technologies:"];
                   P Key.technologies project]]
     ++ [El Tag.div
           (when (truthy_prop (project !! Key.projectUrl))
              [A (Entry Kind.projects index Key.projectUrl)
                 (default [] (project !! Key.projectUrl))
                 [Icon "Globe"; Text "Live Demo"]]
            ++ when (truthy_prop (project !! Key.githubUrl))
                 [A (Entry Kind.projects index Key.githubUrl)
                    (default [] (project !! Key.githubUrl))
                    [Icon "Github"; Text "GitHub Repo"]])]).

(** The callbacks of [data.experience.map] and [data.education.map] in
    [Template1]. *)
Definition Template1_experience (index : nat) (exp : object) : node :=
  let P := prop Kind.experience index in
  El Tag.div [
    El Tag.h3 [P Key.title exp; Text " at "; P Key.company exp];
    El Tag.p [P Key.dates exp];
    El Tag.p [P Key.description exp]
  ].

Definition Template1_education (index : nat) (edu : object) : node :=
  let P := prop Kind.education index in
  El Tag.div
    ([El Tag.h3 [P Key.degree edu; Text " from "; P Key.institution edu];
      El Tag.p [P Key.dates edu]]
     ++ when (truthy_prop (edu !! Key.description))
          [El Tag.p [P Key.description edu]]).

Definition Template1 (data : PortfolioData) : option node :=
  experienceSection ←
    listSection "Experience" Kind.experience Template1_experience data;
  educationSection ←
    listSection "Education" Kind.education Template1_education data;
  projectsSection ← listSection "Projects" Kind.projects projectCard data;
  Some (El Tag.div
    ([El Tag.header [
        El Tag.div [El Tag.h1 [show Input.name (name data)];
                  El Tag.p [show Input.title (title data)]];
        El Tag.div [
          Img (Scalar Input.profilePicture)
            (pictureSrc "https://placehold.co/150x150/E0F2F7/0288D1?text="
               data)]
      ];
      El Tag.section [El Tag.h2 [Text "About Me"];
                    El Tag.p [show Input.bio (bio data)]];
      El Tag.section [
        contact data;
        El Tag.div [
          El Tag.h3 [Icon "Globe"; Text "Social"];
          El Tag.ul
            (when (truthy (linkedin data))
               [El Tag.li [Icon "Linkedin";
                         A (Scalar Input.linkedin) (linkedin data)
                           [Text "LinkedIn"]]]
             ++ when (truthy (github data))
                  [El Tag.li [Icon "Github";
                            A (Scalar Input.github) (github data)
                              [Text "GitHub"]]]
             ++ when (truthy (website data))
                  [El Tag.li [Icon "Globe";
                            A (Scalar Input.website) (website data)
                              [Text "Website"]]]
             ++ when (truthy (twitter data))
                  [El Tag.li [Icon "Twitter";
                            A (Scalar Input.twitter) (twitter data)
                              [Text "Twitter"]]])
        ]
      ]]
     ++ when (0 <? length (skills data))%nat
          [El Tag.section [El Tag.h2 [Text "Skills"];
                         El Tag.div (skillTags data)]]
     ++ experienceSection
     ++ educationSection
     ++ projectsSection)).

(** The callbacks of [data.experience.map] and [data.education.map] in
    [Template2]. *)
Definition Template2_experience (index : nat) (exp : object) : node :=
  let P := prop Kind.experience index in
  El Tag.div [
    El Tag.h3 [P Key.title exp];
    El Tag.p [P Key.company exp];
    El Tag.p [P Key.dates exp];
    El Tag.p [P Key.description exp]
  ].

Definition Template2_education (index : nat) (edu : object) : node :=
  let P := prop Kind.education index in
  El Tag.div
    ([El Tag.h3 [P Key.degree edu];
      El Tag.p [P Key.institution edu];
      El Tag.p [P Key.dates edu]]
     ++ when (truthy_prop (edu !! Key.description))
          [El Tag.p [P Key.description edu]]).

Definition Template2 (data : PortfolioData) : option node :=
  experienceSection ←
    listSection "Experience" Kind.experience Template2_experience data;
  educationSection ←
    listSection "Education" Kind.education Template2_education data;
  projectsSection ← listSection "Projects" Kind.projects projectCard data;
  Some (El Tag.div
    ([El Tag.header [
        Img (Scalar Input.profilePicture)
          (pictureSrc "https://placehold.co/180x180/0288D1/FFFFFF?text="
             data);
        El Tag.h1 [show Input.name (name data)];
        El Tag.p [show Input.title (title data)];
        El Tag.div
          (when (truthy (linkedin data))
             [A (Scalar Input.linkedin) (linkedin data) [Icon "Linkedin"]]
           ++ when (truthy (github data))
                [A (Scalar Input.github) (github data) [Icon "Github"]]
           ++ when (truthy (website data))
                [A (Scalar Input.website) (website data) [Icon "Globe"]]
           ++ when (truthy (twitter data))
                [A (Scalar Input.twitter) (twitter data) [Icon "Twitter"]])
      ];
      El Tag.section [El Tag.h2 [Text "About Me"];
                    El Tag.p [show Input.bio (bio data)]];
      El Tag.section
        ([contact data]
         ++ when (0 <? length (skills data))%nat
              [El Tag.div [El Tag.h3 [Icon "Code"; Text "Skills"];
                         El Tag.div (skillTags data)]])]
     ++ experienceSection
     ++ educationSection
     ++ projectsSection)).

Definition PortfolioPage (data : PortfolioData) (template : jsstring)
  : option node :=
  if bool_decide (template = str "template2") then Template2 data
  else Template1 data.

(** What a tree shows: the values of the record it interpolates, and the
    captions of its headings (an [h2] or [h3] holding literal text, with or
    without an icon before it). *)
Fixpoint refs (n : node) : list Ref :=
  match n with
  | Text _ | Icon _ => []
  | Show r _ | Img r _ => [r]
  | A r _ children => r :: concat (map refs children)
  | El _ children => concat (map refs children)
  end.

Definition caption (tag : Tag.t) (children : list node) : list string :=
  match tag, children with
  | (Tag.h2 | Tag.h3), ([Text s] | [Icon _; Text s]) => [s]
  | _, _ => []
  end.

Fixpoint headings (n : node) : list string :=
  match n with
  | El tag children => caption tag children ++ concat (map headings children)
  | A _ _ children => concat (map headings children)
  | _ => []
  end.

(** The links of a tree: what each [<a>] draws its [href] from, and the
    [href]. *)
Fixpoint links (n : node) : list (Ref * jsstring) :=
  match n with
  | A r href children => (r, href) :: concat (map links children)
  | El _ children => concat (map links children)
  | _ => []
  end.

(** The inclusion rule as the specification words it: a value is shown only
    if it has content.  The name, title, picture and biography have a fixed
    place; the other scalars, and the [description] of an education entry
    and the [technologies] and the two URLs of a project, are shown when
    non-empty; every entry of a list shows the remaining fields of its
    kind. *)
Definition optional (field : Kind.t) (key : Key.t) : bool :=
  match field, key with
  | Kind.education, Key.description
  | Kind.projects, (Key.technologies | Key.projectUrl | Key.githubUrl) => true
  | _, _ => false
  end.

Definition layout (field : Kind.t) : list Key.t :=
  match field with
  | Kind.experience => [Key.title; Key.company; Key.dates; Key.description]
  | Kind.education =>
      [Key.degree; Key.institution; Key.dates; Key.description]
  | Kind.projects =>
      [Key.name; Key.description; Key.technologies; Key.projectUrl;
       Key.githubUrl]
  end.

Definition entry_rule (field : Kind.t) (o : object) (key : Key.t) : Prop :=
  key ∈ layout field
  ∧ (optional field key = true → ∃ c s, o !! key = Some (c :: s)).

Definition included (data : PortfolioData) (r : Ref) : Prop :=
  match r with
  | Scalar (Input.name | Input.title | Input.bio | Input.profilePicture) =>
      True
  | Scalar Input.email => email data ≠ []
  | Scalar Input.phone => phone data ≠ []
  | Scalar Input.location => location data ≠ []
  | Scalar Input.linkedin => linkedin data ≠ []
  | Scalar Input.github => github data ≠ []
  | Scalar Input.website => website data ≠ []
  | Scalar Input.twitter => twitter data ≠ []
  | Scalar Input.skills => False
  | Skill index => (index < length (skills data))%nat
  | Entry field index key =>
      ∃ o, entries field data !! index = Some (Some (obj o))
           ∧ entry_rule field o key
  end.

(** The caption of the section of each list. *)
Definition heading (field : Kind.t) : string :=
  match field with
  | Kind.experience => "Experience"
  | Kind.education => "Education"
  | Kind.projects => "Projects"
  end.

(** A tree follows the inclusion rule on [data]: it shows the values the
    rule includes and no others, it has the section of a list exactly when
    the list is non-empty, and the skills section exactly when there are
    skills. *)
Definition follows_rule (data : PortfolioData) (t : node) : Prop :=
  (∀ r, r ∈ refs t ↔ included data r)
  ∧ (∀ field, heading field ∈ headings t ↔ entries field data ≠ [])
  ∧ ("Skills"%string ∈ headings t ↔ skills data ≠ []).

(** Arrays whose slots all hold an entry, as the form produces them. *)
Definition objects (a : array) : Prop :=
  Forall (λ slot, ∃ o, slot = Some (obj o)) a.

(** The lists of a draft or of a record hold entries only. *)
Definition entries_only {S} (data : Portfolio S) : Prop :=
  ∀ field, objects (entries field data).

(** The same of the draft and of the record of a running application. *)
Definition system_entries_only (σ : System) : Prop :=
  (∀ formData, form σ = Some formData → entries_only formData)
  ∧ (∀ data, App.portfolioData (app σ) = Some data → entries_only data).

(** A record to render: two skills, one of them after a stray comma, a
    twitter URL, an education entry without description and a project with
    a repository URL only. *)
Definition sample : PortfolioData :=
  PortfolioForm.handleSubmit
    (PortfolioForm.handleArrayChange 0 Kind.projects Key.githubUrl
       (str "https://example.org/repo")
       (PortfolioForm.addEntry Kind.projects
          (PortfolioForm.handleArrayChange 0 Kind.education Key.degree
             (str "BSc")
             (PortfolioForm.addEntry Kind.education
                (PortfolioForm.handleChange Input.skills (str "Rocq,, OCaml")
                   (PortfolioForm.handleChange Input.twitter
                      (str "https://example.org/ada")
                      (PortfolioForm.handleChange Input.name (str "Ada")
                         PortfolioForm.initial))))))).

(** A callback shows of each entry the fields the rule includes. *)
Definition shows_entry (field : Kind.t) (render : nat → object → node) : Prop :=
  ∀ i o r, r ∈ refs (render i o)
           ↔ ∃ key, r = Entry field i key ∧ entry_rule field o key.

(** The [src] the [onError] handler of an image falls back to. *)
Definition fallbackSrc (placeholder : string) (data : PortfolioData) : jsstring :=
  str placeholder ++ initialOf (name data).

(** The skills a tree displays, in document order. *)
Fixpoint skillsShown (n : node) : list jsstring :=
  match n with
  | Show (Skill _) (Some s) => [s]
  | A _ _ children | El _ children => concat (map skillsShown children)
  | _ => []
  end.

(** ** The form

    The controls of the markup [PortfolioForm] returns, in document order,
    with the handler each is wired to.  An [InputField] without a [type]
    has the default of the component, [text]. *)

Inductive control :=
| Radio (value : jsstring) (checked : bool)
| InputField (label name : string) (value : jsstring)
    (onChange : jsstring → Event) (type : InputType.t)
| TextareaField (label name : string) (value : jsstring)
    (onChange : jsstring → Event)
| Button (title : string) (onClick : Event)
| SubmitButton (label : string).

(** [`${prefix}${index}`] *)
Definition indexed (prefix : string) (index : nat) : string :=
  prefix +:+ pretty index.

(** [entry.key || ''] *)
Definition orEmpty (o : object) (key : Key.t) : jsstring :=
  default [] (o !! key).

Definition experienceFields (index : nat) (exp : object) : list control :=
  let change := ArrayChange (Z.of_nat index) Kind.experience in
  [Button "Remove Experience" (RemoveEntry Kind.experience (Z.of_nat index));
   InputField "Job Title" (indexed "exp-title-" index)
     (orEmpty exp Key.title) (change Key.title) InputType.text;
   InputField "Company" (indexed "exp-company-" index)
     (orEmpty exp Key.company) (change Key.company) InputType.text;
   InputField "Dates (e.g., Jan 2020 - Dec 2022)" (indexed "exp-dates-" index)
     (orEmpty exp Key.dates) (change Key.dates) InputType.text;
   TextareaField "Description" (indexed "exp-description-" index)
     (orEmpty exp Key.description) (change Key.description)].

Definition educationFields (index : nat) (edu : object) : list control :=
  let change := ArrayChange (Z.of_nat index) Kind.education in
  [Button "Remove Education" (RemoveEntry Kind.education (Z.of_nat index));
   InputField "Degree" (indexed "edu-degree-" index)
     (orEmpty edu Key.degree) (change Key.degree) InputType.text;
   InputField "Institution" (indexed "edu-institution-" index)
     (orEmpty edu Key.institution) (change Key.institution) InputType.text;
   InputField "Dates (e.g., Sep 2018 - May 2020)" (indexed "edu-dates-" index)
     (orEmpty edu Key.dates) (change Key.dates) InputType.text;
   TextareaField "Description (Optional)" (indexed "edu-description-" index)
     (orEmpty edu Key.description) (change Key.description)].

Definition projectFields (index : nat) (project : object) : list control :=
  let change := ArrayChange (Z.of_nat index) Kind.projects in
  [Button "Remove Project" (RemoveEntry Kind.projects (Z.of_nat index));
   InputField "Project Name" (indexed "proj-name-" index)
     (orEmpty project Key.name) (change Key.name) InputType.text;
   TextareaField "Description" (indexed "proj-description-" index)
     (orEmpty project Key.description) (change Key.description);
   InputField "Technologies Used (comma-separated)"
     (indexed "proj-tech-" index)
     (orEmpty project Key.technologies) (change Key.technologies)
     InputType.text;
   InputField "Project URL (Live Demo)" (indexed "proj-url-" index)
     (orEmpty project Key.projectUrl) (change Key.projectUrl) InputType.text;
   InputField "GitHub Repository URL" (indexed "proj-github-" index)
     (orEmpty project Key.githubUrl) (change Key.githubUrl) InputType.text].

Definition entryFields (field : Kind.t) : nat → object → list control :=
  match field with
  | Kind.experience => experienceFields
  | Kind.education => educationFields
  | Kind.projects => projectFields
  end.

(** The body of the [map] callbacks of the form, which read the properties
    of their entry. *)
Definition fieldsOf (field : Kind.t) (x : value) (i : nat)
  : option (list control) :=
  match x with
  | obj o => Some (entryFields field i o)
  | undefined => None
  end.

(** The controls that do not depend on the lists: the two radio buttons and
    the inputs wired to [handleChange]. *)
Definition scalarControls (selectedTemplate : jsstring) (formData : FormData)
  : list control :=
  [Radio (str "template1")
     (bool_decide (selectedTemplate = str "template1"));
   Radio (str "template2")
     (bool_decide (selectedTemplate = str "template2"));
   InputField "Full Name" "name" (name formData) (Change Input.name)
     InputType.text;
   InputField "Professional Title" "title" (title formData)
     (Change Input.title) InputType.text;
   InputField "Email" "email" (email formData) (Change Input.email)
     InputType.email;
   InputField "Phone" "phone" (phone formData) (Change Input.phone)
     InputType.tel;
   InputField "Location" "location" (location formData)
     (Change Input.location) InputType.text;
   TextareaField "Short Bio" "bio" (bio formData) (Change Input.bio);
   InputField "Profile Picture URL" "profilePicture"
     (profilePicture formData) (Change Input.profilePicture) InputType.text;
   InputField "LinkedIn Profile URL" "linkedin" (linkedin formData)
     (Change Input.linkedin) InputType.text;
   InputField "GitHub Profile URL" "github" (github formData)
     (Change Input.github) InputType.text;
   InputField "Personal Website URL" "website" (website formData)
     (Change Input.website) InputType.text;
   InputField "Twitter Profile URL" "twitter" (twitter formData)
     (Change Input.twitter) InputType.text;
   TextareaField "Skills (comma-separated)" "skills" (skills formData)
     (Change Input.skills)].

Definition listControls (field : Kind.t) (add : string) (formData : FormData)
  : option (list control) :=
  fields ← map_array (fieldsOf field) (entries field formData);
  Some (concat fields ++ [Button add (AddEntry field)]).

Definition controls (selectedTemplate : jsstring) (formData : FormData)
  : option (list control) :=
  experience ← listControls Kind.experience "Add Experience" formData;
  education ← listControls Kind.education "Add Education" formData;
  projects ← listControls Kind.projects "Add Project" formData;
  Some (scalarControls selectedTemplate formData
        ++ experience ++ education ++ projects
        ++ [SubmitButton "Generate Portfolio"]).

(** A control satisfies its constraints: only the type of an input
    constrains its value. *)
Definition satisfied (c : control) : bool :=
  match c with
  | InputField _ _ value _ type => negb (typeMismatch type value)
  | _ => true
  end.

(** [form.checkValidity()] on the controls of the form. *)
Definition checkValidity (form : list control) : bool :=
  forallb satisfied form.

(** The events a control of [form] can raise.  The submit button raises
    [submit] only when the controls of its form satisfy their constraints. *)
Definition offers (form : list control) (c : control) (e : Event) : Prop :=
  match c with
  | Radio value _ => e = SelectTemplate value
  | InputField _ _ _ onChange _ | TextareaField _ _ _ onChange =>
      ∃ value, e = onChange value
  | Button _ onClick => e = onClick
  | SubmitButton _ => e = Submit ∧ checkValidity form = true
  end.

(** The same control displaying [value]. *)
Definition displaying (value : jsstring) (c : control) : control :=
  match c with
  | InputField label name _ onChange type =>
      InputField label name value onChange type
  | TextareaField label name _ onChange =>
      TextareaField label name value onChange
  | _ => c
  end.

(** An event names a field the form has an input for. *)
Definition keyed (e : Event) : Prop :=
  match e with
  | ArrayChange _ field subField _ => subField ∈ layout field
  | _ => True
  end.

(** The text of the button that appends to a list. *)
Definition addLabel (field : Kind.t) : string :=
  match field with
  | Kind.experience => "Add Experience"
  | Kind.education => "Add Education"
  | Kind.projects => "Add Project"
  end.

(** The [onChange] of a text control. *)
Definition onChangeOf (c : control) : option (jsstring → Event) :=
  match c with
  | InputField _ _ _ onChange _ | TextareaField _ _ _ onChange =>
      Some onChange
  | _ => None
  end.

(** States to try the properties on: the draft of [session] before it is
    submitted, and the card shown after. *)
Definition drafting : System :=
  default initialSystem (run (take 5 session) initialSystem).

Definition draft : FormData :=
  default PortfolioForm.initial (form drafting).

Definition draftControls : list control :=
  default [] (controls (App.selectedTemplate (app drafting)) draft).

Definition summary : System :=
  default initialSystem (run (take 6 session) initialSystem).

(** The form with something typed into the Email input that is no e-mail
    address. *)
Definition mistyped : System :=
  default initialSystem
    (run [Change Input.email (str "not-an-email")] initialSystem).

Definition mistypedControls : list control :=
  default []
    (controls (App.selectedTemplate (app mistyped))
       (default PortfolioForm.initial (form mistyped))).

(** * Properties *)

(** ** Splitting, joining and trimming *)

Section strings.
Implicit Types (s t p : jsstring) (ps : list jsstring) (c sep : N).

Lemma split_not_nil sep s : split sep s ≠ [].
Proof.
  destruct s as [|c s]; simpl; [done|].
  destruct (c =? sep)%N; [done|]. by destruct (split sep s).
Qed.

Lemma join_cons sep p ps :
  ps ≠ [] → join sep (p :: ps) = p ++ sep :: join sep ps.
Proof. by destruct ps. Qed.

Lemma join_split sep s : join sep (split sep s) = s.
Proof.
  induction s as [|c s IH]; simpl; [done|].
  destruct (N.eqb_spec c sep) as [->|Hne].
  - rewrite join_cons by apply split_not_nil. simpl. by rewrite IH.
  - pose proof (split_not_nil sep s) as Hnil.
    destruct (split sep s) as [|p ps]; [done|].
    destruct ps as [|q ps]; simpl in *; by rewrite <- IH.
Qed.

Lemma split_no_sep sep s : Forall (λ p, sep ∉ p) (split sep s).
Proof.
  induction s as [|c s IH]; simpl.
  - repeat constructor. by intros ?%elem_of_nil.
  - destruct (N.eqb_spec c sep) as [->|Hne].
    + constructor; [by intros ?%elem_of_nil | done].
    + destruct (split sep s) as [|p ps].
      * repeat constructor. intros ?%list_elem_of_singleton. congruence.
      * inversion IH; subst. constructor; [|done].
        intros [?|?]%elem_of_cons; congruence.
Qed.

Lemma split_SplitOn sep s : SplitOn sep s (split sep s).
Proof.
  split; [apply split_not_nil|].
  split; [apply split_no_sep | apply join_split].
Qed.

Lemma split_piece sep p : sep ∉ p → split sep p = [p].
Proof.
  induction p as [|c p IH]; intros Hp; simpl; [done|].
  destruct (N.eqb_spec c sep) as [->|Hne].
  - exfalso. apply Hp. by left.
  - rewrite IH; [done|]. intros ?. apply Hp. by right.
Qed.

Lemma split_app_sep sep p s :
  sep ∉ p → split sep (p ++ sep :: s) = p :: split sep s.
Proof.
  induction p as [|c p IH]; intros Hp; simpl.
  - by rewrite N.eqb_refl.
  - destruct (N.eqb_spec c sep) as [->|Hne].
    + exfalso. apply Hp. by left.
    + rewrite IH; [done|]. intros ?. apply Hp. by right.
Qed.

(** The pieces determine the string and the string its pieces. *)
Lemma split_join sep ps :
  ps ≠ [] → Forall (λ p, sep ∉ p) ps → split sep (join sep ps) = ps.
Proof.
  induction ps as [|p ps IH]; [done|]. intros _ Hall.
  inversion Hall as [|? ? Hp Hps]; subst.
  destruct ps as [|q ps].
  - simpl. by apply split_piece.
  - rewrite join_cons by done. rewrite split_app_sep by done.
    by rewrite IH.
Qed.

Lemma SplitOn_unique sep s ps : SplitOn sep s ps → ps = split sep s.
Proof. intros (Hnil & Hall & <-). by rewrite split_join. Qed.

Lemma trimStart_spec s :
  ∃ l, s = l ++ trimStart s
       ∧ Forall (λ c, isWhiteSpace c = true) l
       ∧ ∀ c, head (trimStart s) = Some c → isWhiteSpace c = false.
Proof.
  induction s as [|c s (l & Hs & Hl & Hhd)]; simpl.
  - exists []. by repeat split.
  - destruct (isWhiteSpace c) eqn:Hc.
    + exists (c :: l). split; [by rewrite Hs at 1|]. split; [|done].
      by constructor.
    + exists []. split; [done|]. split; [done|].
      intros c' [= <-]. done.
Qed.

Lemma trimEnd_spec s :
  ∃ r, s = trimEnd s ++ r
       ∧ Forall (λ c, isWhiteSpace c = true) r
       ∧ ∀ c, last (trimEnd s) = Some c → isWhiteSpace c = false.
Proof.
  unfold trimEnd.
  destruct (trimStart_spec (reverse s)) as (l & Hs & Hl & Hhd).
  exists (reverse l). split; [|split].
  - rewrite <- reverse_app, <- Hs. by rewrite reverse_involutive.
  - by apply Forall_reverse.
  - intros c. rewrite last_reverse. apply Hhd.
Qed.

Lemma trimStart_id s :
  (∀ c, head s = Some c → isWhiteSpace c = false) → trimStart s = s.
Proof.
  destruct s as [|c s]; simpl; [done|]. intros H. by rewrite (H c).
Qed.

Lemma trimEnd_id s :
  (∀ c, last s = Some c → isWhiteSpace c = false) → trimEnd s = s.
Proof.
  intros H. unfold trimEnd. rewrite trimStart_id.
  - apply reverse_involutive.
  - intros c. rewrite head_reverse. apply H.
Qed.

Lemma trimEnd_head s c :
  head (trimEnd s) = Some c → head s = Some c.
Proof.
  destruct (trimEnd_spec s) as (r & Hs & _). rewrite Hs at 2.
  by destruct (trimEnd s).
Qed.
End strings.

Lemma trim_Trimmed (s : jsstring) : Trimmed s (trim s).
Proof.
  unfold trim.
  destruct (trimStart_spec s) as (l & Hl & Hlws & Hhd).
  destruct (trimEnd_spec (trimStart s)) as (r & Hr & Hrws & Hlast).
  split; [|split].
  - exists l, r. split; [|done]. rewrite Hl at 1. by rewrite Hr at 1.
  - intros c Hc. apply Hhd. by apply trimEnd_head.
  - done.
Qed.

Lemma Trimmed_fixed (s t : jsstring) : Trimmed s t → trim t = t.
Proof.
  intros (_ & Hhd & Hlast). unfold trim.
  rewrite (trimStart_id t Hhd). by apply trimEnd_id.
Qed.

Lemma Trimmed_elem_of (s t : jsstring) (c : N) : Trimmed s t → c ∈ t → c ∈ s.
Proof.
  intros ((l & r & Hs & _) & _) Hc. subst s. rewrite !elem_of_app. auto.
Qed.

Lemma trim_idempotent (s : jsstring) : trim (trim s) = trim s.
Proof. apply (Trimmed_fixed s), trim_Trimmed. Qed.

Lemma parseSkills_entries (s : jsstring) :
  Forall skill_entry (PortfolioForm.parseSkills s).
Proof.
  unfold PortfolioForm.parseSkills.
  apply Forall_forall. intros p [Hne Hin]%list_elem_of_filter.
  apply list_elem_of_fmap in Hin as (q & -> & Hq).
  split; [done|]. split; [|apply trim_idempotent].
  intros Hc. apply (Trimmed_elem_of q) in Hc; [|apply trim_Trimmed].
  pose proof (split_no_sep comma s) as Hall.
  rewrite Forall_forall in Hall. by apply (Hall q).
Qed.

Lemma skill_entries_kept (ps : list jsstring) :
  Forall skill_entry ps → filter (λ s, s ≠ []) (map trim ps) = ps.
Proof.
  induction 1 as [|q qs (Hne & _ & Htrim) _ IH]; [done|].
  cbn [map]. rewrite Htrim, filter_cons_True by done. by rewrite IH.
Qed.

Lemma parseSkills_join (ps : list jsstring) :
  Forall skill_entry ps → PortfolioForm.parseSkills (join comma ps) = ps.
Proof.
  intros Hall. unfold PortfolioForm.parseSkills.
  destruct ps as [|p ps]; [done|].
  rewrite split_join; [by apply skill_entries_kept|done|].
  eapply Forall_impl; [done|]. by intros q (_ & ? & _).
Qed.

(** ** Arrays *)

Lemma spread_dense (a : array) : dense a → spread a = a.
Proof.
  induction 1 as [|slot a [x ->] _ IH]; [done|].
  unfold spread in *. cbn. by rewrite IH.
Qed.


Lemma length_spread (a : array) : length (spread a) = length a.
Proof. apply length_map. Qed.

Lemma filter_from_outside (k : nat) (index : Z) (a : array) :
  dense a →
  index < Z.of_nat k ∨ Z.of_nat k + Z.of_nat (length a) ≤ index →
  filter_from k (λ _ i, negb (Z.of_nat i =? index)) a = a.
Proof.
  intros Ha. revert k.
  induction Ha as [|slot a [x ->] _ IH]; intros k Hout; [done|].
  cbn [filter_from]. cbn [length] in Hout.
  destruct (Z.eqb_spec (Z.of_nat k) index) as [<-|_]; [lia|].
  cbn. rewrite IH; [done|lia].
Qed.

Lemma filter_from_inside (k : nat) (index : Z) (a : array) :
  dense a →
  Z.of_nat k ≤ index < Z.of_nat k + Z.of_nat (length a) →
  filter_from k (λ _ i, negb (Z.of_nat i =? index)) a
  = delete (Z.to_nat (index - Z.of_nat k)) a.
Proof.
  intros Ha. revert k.
  induction Ha as [|slot a [x ->] Ha IH]; intros k Hin; cbn [length] in Hin.
  { lia. }
  cbn [filter_from].
  destruct (Z.eqb_spec (Z.of_nat k) index) as [<-|Hne]; cbn.
  - rewrite Z.sub_diag. cbn. apply filter_from_outside; [done|lia].
  - rewrite IH by lia.
    replace (Z.to_nat (index - Z.of_nat k))
      with (S (Z.to_nat (index - Z.of_nat (S k)))) by lia.
    done.
Qed.

Lemma filter_array_remove (index : Z) (a : array) :
  dense a →
  filter_array (λ _ i, negb (Z.of_nat i =? index)) a
  = if bool_decide (0 ≤ index < Z.of_nat (length a))
    then delete (Z.to_nat index) a else a.
Proof.
  intros Ha. unfold filter_array. case_bool_decide as Hin.
  - rewrite filter_from_inside by (done || lia). f_equal. lia.
  - apply filter_from_outside; [done|lia].
Qed.

Lemma delete_appended {X} (l : list X) (x : X) :
  delete (length l) (l ++ [x]) = l.
Proof. induction l as [|y l IH]; [done|]. simpl. by f_equal. Qed.

Lemma at_index_lookup (a : array) (index : Z) (x : value) :
  0 ≤ index → a !! Z.to_nat index = Some (Some x) → at_index a index = x.
Proof.
  intros Hpos Hx. unfold at_index.
  destruct (Z.ltb_spec index 0); [lia|]. by rewrite Hx.
Qed.

Lemma at_index_outside (a : array) (index : Z) :
  index < 0 ∨ Z.of_nat (length a) ≤ index → at_index a index = undefined.
Proof.
  intros Hout. unfold at_index.
  destruct (Z.ltb_spec index 0); [done|].
  rewrite lookup_ge_None_2; [done|lia].
Qed.

Lemma assign_negative (a : array) (index : Z) (x : value) :
  index < 0 → assign a index x = a.
Proof. intros H. unfold assign. by destruct (Z.ltb_spec index 0); [|lia]. Qed.

Lemma assign_inside (a : array) (index : Z) (x : value) :
  0 ≤ index < Z.of_nat (length a) →
  assign a index x = <[Z.to_nat index := Some x]> a.
Proof.
  intros H. unfold assign. destruct (Z.ltb_spec index 0); [lia|].
  by destruct (Nat.ltb_spec (Z.to_nat index) (length a)); [|lia].
Qed.

Lemma assign_outside (a : array) (index : Z) (x : value) :
  Z.of_nat (length a) ≤ index ≤ maxIndex →
  assign a index x
  = a ++ replicate (Z.to_nat index - length a) None ++ [Some x].
Proof.
  intros H. unfold assign. destruct (Z.ltb_spec index 0); [lia|].
  destruct (Nat.ltb_spec (Z.to_nat index) (length a)); [lia|].
  by destruct (Z.leb_spec index maxIndex); [|lia].
Qed.

Lemma assign_beyond (a : array) (index : Z) (x : value) :
  Z.of_nat (length a) ≤ index → maxIndex < index → assign a index x = a.
Proof.
  intros H Hmax. unfold assign. destruct (Z.ltb_spec index 0); [done|].
  destruct (Nat.ltb_spec (Z.to_nat index) (length a)); [lia|].
  by destruct (Z.leb_spec index maxIndex); [lia|].
Qed.

(** ** The draft as a record *)

Lemma with_entries_id {S} (field : Kind.t) (data : Portfolio S) :
  with_entries field (entries field data) data = data.
Proof. by destruct data, field. Qed.

Lemma entries_with_entries {S} (field field' : Kind.t) (a : array)
    (data : Portfolio S) :
  entries field' (with_entries field a data)
  = if decide (field' = field) then a else entries field' data.
Proof. by destruct field, field'. Qed.

Lemma scalar_with_entries (input : Input.t) (field : Kind.t) (a : array)
    (data : FormData) :
  scalar input (with_entries field a data) = scalar input data.
Proof. by destruct field, input. Qed.

Lemma with_entries_twice {S} (field : Kind.t) (a b : array)
    (data : Portfolio S) :
  with_entries field b (with_entries field a data) = with_entries field b data.
Proof. by destruct field. Qed.

Ltac solve_dense :=
  unfold dense; repeat (apply Forall_cons; split; [by eexists|]);
  apply Forall_nil_2.

(** ** Submission: the skills parse *)

(** C1. Submitting a draft gives a record whose [skills] are the pieces of
    the raw skills string between its commas, each trimmed of white space,
    with the empty ones dropped: in the order of the pieces and with
    duplicates kept.  With the raw string [" React, , Node.js ,Node.js"] the
    record has the skills ["React"; "Node.js"; "Node.js"]. *)
Theorem submit_parses_skills (formData : FormData) (s : App.State) :
  let data := PortfolioForm.handleSubmit formData in
  App.portfolioData (App.handleSubmit data s) = Some data
  ∧ (∃ pieces trimmed,
        SplitOn comma (skills formData) pieces
        ∧ Forall2 Trimmed pieces trimmed
        ∧ skills data = filter (λ p, p ≠ []) trimmed)
  ∧ skills
      (PortfolioForm.handleSubmit
         (with_skills (str " React, , Node.js ,Node.js") formData))
    = [str "React"; str "Node.js"; str "Node.js"].
Proof.
  split; [done|]. split.
  - exists (split comma (skills formData)),
      (map trim (split comma (skills formData))).
    split; [apply split_SplitOn|]. split; [|done].
    apply Forall2_fmap_r, Forall_Forall2_diag, Forall_true, trim_Trimmed.
  - by vm_compute.
Qed.

(** C5. Parsing the skills, joining the result with commas and parsing
    again gives the same sequence, in the same order.  The side condition
    that no parsed entry contains a comma holds of every string
    ([parseSkills_entries]), so the round trip holds of every string. *)
Theorem parseSkills_round_trip (s : jsstring) :
  PortfolioForm.parseSkills (join comma (PortfolioForm.parseSkills s))
  = PortfolioForm.parseSkills s.
Proof. apply parseSkills_join, parseSkills_entries. Qed.

(** ** Editing the lists *)

(** C4. Removing at a position [index] within a draft list of length [n]
    gives a list of length [n - 1] whose elements before [index] are
    unchanged and whose element [j], for [j] from [index] on, is the former
    element [j + 1]; removing at a position outside the list, in particular
    from an empty list, changes nothing. *)
Theorem removeEntry_shifts (field : Kind.t) (index : Z) (formData : FormData) :
  let a := entries field formData in
  let formData' := PortfolioForm.removeEntry field index formData in
  let a' := entries field formData' in
  dense a →
  (0 ≤ index < Z.of_nat (length a) →
     formData' = with_entries field a' formData
     ∧ length a' = (length a - 1)%nat
     ∧ (∀ j : nat, (j < Z.to_nat index)%nat → a' !! j = a !! j)
     ∧ (∀ j : nat, (Z.to_nat index ≤ j)%nat → a' !! j = a !! S j))
  ∧ (¬ (0 ≤ index < Z.of_nat (length a)) → formData' = formData).
Proof.
  intros a formData' a' Ha.
  assert (a' = if bool_decide (0 ≤ index < Z.of_nat (length a))
               then delete (Z.to_nat index) a else a) as Ha'.
  { subst a' formData'. unfold PortfolioForm.removeEntry.
    rewrite entries_with_entries, decide_True by done.
    by apply filter_array_remove. }
  split; intros Hin.
  - rewrite bool_decide_eq_true_2 in Ha' by done.
    split; [|split; [|split]].
    + subst a' formData'. unfold PortfolioForm.removeEntry.
      by rewrite entries_with_entries, decide_True.
    + rewrite Ha', length_delete; [done|].
      apply lookup_lt_is_Some. lia.
    + intros j Hj. rewrite Ha'. by apply list_lookup_delete_lt.
    + intros j Hj. rewrite Ha'. by apply list_lookup_delete_ge.
  - rewrite bool_decide_eq_false_2 in Ha' by done.
    subst formData'. unfold PortfolioForm.removeEntry.
    fold a. rewrite filter_array_remove, bool_decide_eq_false_2 by done.
    apply with_entries_id.
Qed.

Lemma removeEntry_shifts_witness :
  let formData :=
    with_entries Kind.projects
      [Some (obj {[Key.name := str "a"]}); Some (obj {[Key.name := str "b"]});
       Some (obj {[Key.name := str "c"]})] PortfolioForm.initial in
  entries Kind.projects (PortfolioForm.removeEntry Kind.projects 1 formData)
    !! 1%nat
  = Some (Some (obj {[Key.name := str "c"]})).
Proof.
  intros formData.
  assert (dense (entries Kind.projects formData)) as Ha by solve_dense.
  pose proof (removeEntry_shifts Kind.projects 1 formData Ha) as [Hin _].
  destruct Hin as (_ & _ & _ & Hshift); [cbn; lia|].
  by rewrite (Hshift 1%nat) by (cbn; lia).
Defined.

(** C6. Appending a sub-record, which adds an entry without any field at the
    end of the list, and then removing the entry at the appended position
    gives back the draft as it was before appending. *)
Theorem addEntry_removeEntry (field : Kind.t) (formData : FormData) :
  let a := entries field formData in
  dense a →
  entries field (PortfolioForm.addEntry field formData) = a ++ [Some (obj ∅)]
  ∧ PortfolioForm.removeEntry field (Z.of_nat (length a))
      (PortfolioForm.addEntry field formData)
    = formData.
Proof.
  intros a Ha. unfold PortfolioForm.addEntry, PortfolioForm.removeEntry.
  fold a. rewrite entries_with_entries, decide_True, spread_dense by done.
  split; [done|].
  rewrite filter_array_remove.
  - rewrite bool_decide_eq_true_2 by (rewrite length_app; cbn; lia).
    rewrite Nat2Z.id, with_entries_twice.
    rewrite delete_appended. apply with_entries_id.
  - apply Forall_app. split; [done|]. solve_dense.
Qed.

Lemma addEntry_removeEntry_witness :
  let formData :=
    with_entries Kind.education [Some (obj {[Key.degree := str "BSc"]})]
      PortfolioForm.initial in
  PortfolioForm.removeEntry Kind.education 1
    (PortfolioForm.addEntry Kind.education formData)
  = formData.
Proof.
  intros formData.
  apply (addEntry_removeEntry Kind.education formData). solve_dense.
Defined.

(** C7. The positional sub-field update at a position inside the list
    replaces that sub-field of the sub-record at that position and nothing
    else: the other fields of the sub-record, the other positions of the
    list, the other two lists and the scalar fields, the raw skills string
    among them, are as before. *)
Theorem handleArrayChange_frame (index : Z) (field : Kind.t) (subField : Key.t)
    (value : jsstring) (formData : FormData) :
  let a := entries field formData in
  let formData' :=
    PortfolioForm.handleArrayChange index field subField value formData in
  let a' := entries field formData' in
  dense a →
  0 ≤ index < Z.of_nat (length a) →
  ∃ old new,
    a !! Z.to_nat index = Some (Some old)
    ∧ a' !! Z.to_nat index = Some (Some (obj new))
    ∧ new !! subField = Some value
    ∧ (∀ key, key ≠ subField → new !! key = props old !! key)
    ∧ length a' = length a
    ∧ (∀ j : nat, j ≠ Z.to_nat index → a' !! j = a !! j)
    ∧ (∀ field', field' ≠ field →
         entries field' formData' = entries field' formData)
    ∧ (∀ input, scalar input formData' = scalar input formData).
Proof.
  intros a formData' a' Ha Hin.
  assert (Z.to_nat index < length a)%nat as Hlt by lia.
  destruct (lookup_lt_is_Some_2 a _ Hlt) as [slot Hslot].
  assert (is_Some slot) as [old ->].
  { unfold dense in Ha. rewrite Forall_lookup in Ha. by eapply Ha. }
  assert (a' = <[Z.to_nat index := Some (obj (<[subField := value]> (props old)))]> a)
    as Ha'.
  { subst a' formData'. unfold PortfolioForm.handleArrayChange. fold a.
    rewrite entries_with_entries, decide_True, spread_dense by done.
    rewrite assign_inside by done.
    by rewrite (at_index_lookup a index old) by (done || lia). }
  exists old, (<[subField := value]> (props old)).
  split; [done|]. split; [by rewrite Ha', list_lookup_insert_eq|].
  split; [by rewrite lookup_insert_eq|].
  split; [by intros key Hkey; rewrite lookup_insert_ne|].
  split; [by rewrite Ha', length_insert|].
  split; [by intros j Hj; rewrite Ha', list_lookup_insert_ne|].
  subst formData'. unfold PortfolioForm.handleArrayChange. split.
  - intros field' Hne. by rewrite entries_with_entries, decide_False.
  - intros input. apply scalar_with_entries.
Qed.

Lemma handleArrayChange_frame_witness :
  let formData :=
    with_entries Kind.experience
      [Some (obj {[Key.title := str "dev"; Key.company := str "Corp"]});
       Some (obj ∅)]
      PortfolioForm.initial in
  let formData' :=
    PortfolioForm.handleArrayChange 0 Kind.experience Key.title (str "lead")
      formData in
  ∃ old new,
    entries Kind.experience formData !! Z.to_nat 0 = Some (Some old)
    ∧ entries Kind.experience formData' !! Z.to_nat 0 = Some (Some (obj new))
    ∧ new !! Key.title = Some (str "lead")
    ∧ (∀ key, key ≠ Key.title → new !! key = props old !! key)
    ∧ length (entries Kind.experience formData')
      = length (entries Kind.experience formData)
    ∧ (∀ j : nat, j ≠ Z.to_nat 0 →
         entries Kind.experience formData' !! j
         = entries Kind.experience formData !! j)
    ∧ (∀ field', field' ≠ Kind.experience →
         entries field' formData' = entries field' formData)
    ∧ (∀ input, scalar input formData' = scalar input formData).
Proof.
  intros formData formData'.
  apply (handleArrayChange_frame 0 Kind.experience Key.title (str "lead")
           formData).
  - solve_dense.
  - cbn. lia.
Defined.

(** C2, as the code has it.  The positional sub-field update has no bounds
    check and does not fault.  At a position at or past the end of the list
    that is an array index (at most 2^32 - 2) it extends the list up to that
    position: the entries already there stay in place, the slots between the
    former end and the position are empty, and the position holds a
    sub-record with the given sub-field only.  At a negative position, and at
    a position past the end that is above the largest array index, the draft
    is unchanged.  In all cases the rest of the draft is unchanged. *)
Theorem handleArrayChange_outside (index : Z) (field : Kind.t)
    (subField : Key.t) (value : jsstring) (formData : FormData) :
  let a := entries field formData in
  let formData' :=
    PortfolioForm.handleArrayChange index field subField value formData in
  dense a →
  (Z.of_nat (length a) ≤ index ≤ maxIndex →
     formData'
     = with_entries field
         (a ++ replicate (Z.to_nat index - length a) None
            ++ [Some (obj {[subField := value]})])
         formData
     ∧ Z.of_nat (length (entries field formData')) = index + 1)
  ∧ (index < 0 ∨ (Z.of_nat (length a) ≤ index ∧ maxIndex < index) →
     formData' = formData).
Proof.
  intros a formData' Ha. subst formData'.
  unfold PortfolioForm.handleArrayChange. fold a.
  rewrite spread_dense by done. split; intros Hout.
  - rewrite assign_outside, at_index_outside by (done || lia).
    split; [done|].
    rewrite entries_with_entries, decide_True by done.
    rewrite !length_app, length_replicate. cbn. lia.
  - destruct Hout as [Hneg|[Hlen Hmax]].
    + rewrite assign_negative by done. apply with_entries_id.
    + rewrite assign_beyond by done. apply with_entries_id.
Qed.

Lemma handleArrayChange_outside_witness :
  let formData :=
    with_entries Kind.projects [Some (obj {[Key.name := str "site"]})]
      PortfolioForm.initial in
  entries Kind.projects
    (PortfolioForm.handleArrayChange 3 Kind.projects Key.name (str "app")
       formData)
  = [Some (obj {[Key.name := str "site"]}); None; None;
     Some (obj {[Key.name := str "app"]})]
  ∧ PortfolioForm.handleArrayChange 4294967295 Kind.projects Key.name
      (str "app") formData
    = formData.
Proof.
  intros formData.
  assert (dense (entries Kind.projects formData)) as Ha by solve_dense.
  split.
  - pose proof (handleArrayChange_outside 3 Kind.projects Key.name (str "app")
                  formData Ha) as [Hout _].
    destruct Hout as [-> _]; [unfold maxIndex; cbn; lia|].
    by rewrite entries_with_entries, decide_True.
  - pose proof (handleArrayChange_outside 4294967295 Kind.projects Key.name
                  (str "app") formData Ha) as [_ Hout].
    apply Hout. right. unfold maxIndex. cbn. lia.
Defined.

(** C2 as stated fails: on the empty draft, whose experience list has length
    0, the update at position 0 is out of range and yet adds an entry. *)
Lemma handleArrayChange_extends :
  ¬ (∀ (field : Kind.t) (subField : Key.t) (value : jsstring) (index : Z)
       (formData : FormData),
       index < 0 ∨ Z.of_nat (length (entries field formData)) ≤ index →
       PortfolioForm.handleArrayChange index field subField value formData
       = formData).
Proof.
  intros H.
  specialize (H Kind.experience Key.title (str "x") 0 PortfolioForm.initial).
  assert (length (experience
            (PortfolioForm.handleArrayChange 0 Kind.experience Key.title
               (str "x") PortfolioForm.initial)) = 1%nat) as Hlen by done.
  rewrite H in Hlen; [done|]. right. cbn. lia.
Qed.

(** ** The display modes *)

Lemma commit_form (app' : App.State) (form0 : option FormData) :
  match App.displayMode app' with
  | App.EDITING => is_Some (form (commit app' form0))
  | _ => form (commit app' form0) = None
  end.
Proof. unfold commit. destruct (App.displayMode app'); cbn; eauto. Qed.

Lemma step_mounted (e : Event) (σ σ' : System) :
  step e σ = Some σ' → mounted σ'.
Proof.
  unfold step, mounted. intros Hstep.
  destruct (App.displayMode (app σ)) eqn:Hmode, (form σ) as [formData|], e;
    try discriminate Hstep;
    repeat match type of Hstep with
           | (if ?b then _ else _) = _ => destruct b; try discriminate Hstep
           end;
    injection Hstep as <-; try apply commit_form;
    cbn; rewrite Hmode; eauto.
Qed.

Lemma reachable_mounted (σ : System) : reachable σ → mounted σ.
Proof.
  destruct 1 as [|σ e σ' _ Hstep].
  - unfold mounted. cbn. eauto.
  - by eapply step_mounted.
Qed.

Lemma run_reachable (es : list Event) (σ σ' : System) :
  reachable σ → run es σ = Some σ' → reachable σ'.
Proof.
  revert σ. induction es as [|e es IH]; intros σ Hσ; cbn.
  - by intros [= <-].
  - destruct (step e σ) as [σ1|] eqn:Hstep; [|done]. cbn.
    apply IH. by eapply reachable_step.
Qed.

Lemma typeMismatch_examples :
  typeMismatch InputType.email [] = false
  ∧ typeMismatch InputType.email (str "john.doe@example.com") = false
  ∧ typeMismatch InputType.email (str " ada@localhost ") = false
  ∧ typeMismatch InputType.email (str "not-an-email") = true
  ∧ typeMismatch InputType.email (str "ada@example.") = true
  ∧ typeMismatch InputType.email (str "ada@@example.com") = true
  ∧ typeMismatch InputType.email (str "@example.com") = true
  ∧ typeMismatch InputType.email (str "ada@-example.com") = true
  ∧ typeMismatch InputType.tel (str "not-a-number") = false.
Proof. by vm_compute. Qed.

(** X12. In every reachable state the transitions of its display mode are
    offered as the markup has them.  While editing, the form is mounted and
    submit is accepted exactly when the Email input has no type mismatch: its
    value is, once sanitized, empty or a valid e-mail address; submit is
    always accepted once that input is cleared.  The card offers expand and
    reset, the full page offers back-to-form. *)
Lemma transitions_enabled (σ : System) :
  reachable σ →
  match App.displayMode (app σ) with
  | App.EDITING =>
      ∃ formData,
        form σ = Some formData
        ∧ (is_Some (step Submit σ)
           ↔ typeMismatch InputType.email (email formData) = false)
        ∧ is_Some (σ' ← step (Change Input.email []) σ; step Submit σ')
  | App.SUMMARY => is_Some (step CardClick σ) ∧ is_Some (step Reset σ)
  | App.FULL => is_Some (step BackToForm σ)
  end.
Proof.
  intros Hm%reachable_mounted. unfold mounted in Hm. unfold step.
  destruct (App.displayMode (app σ)) eqn:Hmode.
  - destruct Hm as [formData ->]. exists formData. split; [done|].
    cbn -[typeMismatch]. rewrite Hmode. unfold submittable. split.
    + destruct (typeMismatch InputType.email (email formData)); cbn.
      * split; [by intros [? ?]|done].
      * split; [done|by eexists].
    + cbn. by eexists.
  - rewrite Hm. eauto.
  - rewrite Hm. eauto.
Qed.

(** C8. The application starts in display mode EDITING, and an interaction
    changes the display mode only along these transitions: submit from
    EDITING to SUMMARY, expand from SUMMARY to FULL, reset from SUMMARY to
    EDITING and from FULL to EDITING.  No interaction leads from FULL to
    SUMMARY. *)
Theorem display_mode_transitions (e : Event) (σ σ' : System) :
  step e σ = Some σ' →
  App.displayMode (app initialSystem) = App.EDITING
  ∧ transition (App.displayMode (app σ)) e (App.displayMode (app σ'))
  ∧ ¬ (App.displayMode (app σ) = App.FULL
       ∧ App.displayMode (app σ') = App.SUMMARY).
Proof.
  intros Hstep. split; [done|].
  assert (transition (App.displayMode (app σ)) e (App.displayMode (app σ')))
    as Ht.
  { unfold step in Hstep.
    destruct (App.displayMode (app σ)) eqn:Hmode, (form σ) as [formData|], e;
      try discriminate Hstep;
      repeat match type of Hstep with
             | (if ?b then _ else _) = _ => destruct b; try discriminate Hstep
             end;
      injection Hstep as <-; cbn;
      first [ rewrite Hmode; by constructor
            | unfold App.displayMode in *; cbn in *;
              destruct (App.portfolioData (app σ)),
                (App.showFullPortfolio (app σ));
              try discriminate Hmode; by constructor ]. }
  split; [done|]. intros [Hfull Hsummary].
  rewrite Hfull, Hsummary in Ht. inversion Ht.
Qed.

Lemma display_mode_transitions_witness :
  step BackToForm afterSession
  = Some (mkSystem (App.mkState None (str "template2") false)
            (Some PortfolioForm.initial))
  ∧ transition (App.displayMode (app afterSession)) BackToForm App.EDITING.
Proof.
  assert (step BackToForm afterSession
          = Some (mkSystem (App.mkState None (str "template2") false)
                    (Some PortfolioForm.initial))) as Hstep
    by (vm_compute; reflexivity).
  split; [done|].
  apply (display_mode_transitions BackToForm afterSession _ Hstep).
Defined.

Lemma afterSession_reachable : reachable afterSession.
Proof.
  apply (run_reachable session initialSystem); [constructor|].
  vm_compute. reflexivity.
Qed.

(** C9. In every reachable state that shows the full page, going back to the
    form clears the record and leads to display mode EDITING with a new,
    empty draft: every scalar field and the raw skills string are the empty
    string and the three lists are empty. *)
Theorem back_to_form_resets (σ : System) :
  reachable σ →
  App.displayMode (app σ) = App.FULL →
  ∃ σ',
    step BackToForm σ = Some σ'
    ∧ App.portfolioData (app σ') = None
    ∧ App.displayMode (app σ') = App.EDITING
    ∧ form σ' = Some PortfolioForm.initial
    ∧ (∀ input, scalar input PortfolioForm.initial = [])
    ∧ (∀ field, entries field PortfolioForm.initial = []).
Proof.
  intros Hm%reachable_mounted Hfull. unfold mounted in Hm.
  rewrite Hfull in Hm. eexists. unfold step. rewrite Hfull, Hm.
  split; [done|]. split; [done|]. split; [done|]. split; [done|].
  split; [by intros []|by intros []].
Qed.

Lemma back_to_form_resets_witness :
  App.displayMode (app afterSession) = App.FULL
  ∧ (∃ data, App.portfolioData (app afterSession) = Some data
             ∧ name data = str "Ada")
  ∧ ∃ σ',
      step BackToForm afterSession = Some σ'
      ∧ App.portfolioData (app σ') = None
      ∧ App.displayMode (app σ') = App.EDITING
      ∧ form σ' = Some PortfolioForm.initial
      ∧ (∀ input, scalar input PortfolioForm.initial = [])
      ∧ (∀ field, entries field PortfolioForm.initial = []).
Proof.
  split; [vm_compute; reflexivity|]. split.
  - eexists. split; vm_compute; reflexivity.
  - apply (back_to_form_resets afterSession afterSession_reachable).
    vm_compute. reflexivity.
Defined.

(** ** The renderer *)

#[local] Set Warnings "-clear-no-such-hyp".

Lemma truthy_spec (s : jsstring) : truthy s = true ↔ s ≠ [].
Proof. by destruct s. Qed.

Lemma truthy_prop_spec (v : option jsstring) :
  truthy_prop v = true ↔ ∃ c s, v = Some (c :: s).
Proof. destruct v as [[|c s]|]; cbn; naive_solver. Qed.

Section collect.
Context {X : Type} (f : node → list X).

Lemma map_from_elem (render : nat → object → node) (k : nat) (a : array)
    (children : list node) (x : X) :
  map_from k (entry render) a = Some children →
  x ∈ concat (map f children)
  ↔ ∃ i o, a !! i = Some (Some (obj o)) ∧ x ∈ f (render (k + i)%nat o).
Proof.
  revert k children.
  induction a as [|[[|o]|] a IH]; intros k children; cbn.
  - intros [= <-]. cbn. split; [by intros ?%elem_of_nil|].
    by intros (i & o & ? & _).
  - done.
  - destruct (map_from (S k) (entry render) a) as [rest|] eqn:Hrest; [|done].
    cbn. intros [= <-]. cbn. rewrite elem_of_app, (IH (S k) rest) by done.
    split.
    + intros [Hx|(i & o' & Hi & Hx)].
      * exists 0%nat, o. by rewrite Nat.add_0_r.
      * exists (S i), o'. by rewrite Nat.add_succ_r.
    + intros ([|i] & o' & Hi & Hx); cbn in Hi.
      * injection Hi as <-. left. by rewrite Nat.add_0_r in Hx.
      * right. exists i, o'. by rewrite Nat.add_succ_r in Hx.
  - intros Hrest. rewrite (IH (S k) children) by done. split.
    + intros (i & o & Hi & Hx). exists (S i), o. by rewrite Nat.add_succ_r.
    + intros ([|i] & o & Hi & Hx); cbn in Hi; [done|].
      exists i, o. by rewrite Nat.add_succ_r in Hx.
Qed.

Lemma map_from_nil (render : nat → object → node) (k : nat) (a : array)
    (children : list node) :
  map_from k (entry render) a = Some children →
  (∀ i o, f (render i o) = []) →
  concat (map f children) = [].
Proof.
  intros Hmap Hnil.
  destruct (concat (map f children)) as [|x l] eqn:Hc; [done|].
  assert (x ∈ concat (map f children)) as Hx by (rewrite Hc; left).
  apply (map_from_elem render k a children x Hmap) in Hx
    as (i & o & _ & Hx).
  rewrite Hnil in Hx. by apply elem_of_nil in Hx.
Qed.
End collect.

Lemma listSection_refs (h : string) (field : Kind.t)
    (render : nat → object → node) (data : PortfolioData) (sect : list node)
    (r : Ref) :
  listSection h field render data = Some sect →
  r ∈ concat (map refs sect)
  ↔ ∃ i o, entries field data !! i = Some (Some (obj o))
           ∧ r ∈ refs (render i o).
Proof.
  unfold listSection, map_array.
  destruct (Nat.ltb_spec 0 (length (entries field data))) as [Hpos|Hlen].
  - destruct (map_from _ _ _) as [children|] eqn:Hmap; [|done].
    cbn. intros [= <-]. cbn. rewrite !app_nil_r.
    by rewrite (map_from_elem refs render 0 _ children r Hmap).
  - intros [= <-]. cbn.
    destruct (entries field data); [|cbn in Hlen; lia].
    split; [by intros ?%elem_of_nil|]. by intros (i & o & ? & _).
Qed.

Lemma listSection_headings (h : string) (field : Kind.t)
    (render : nat → object → node) (data : PortfolioData) (sect : list node) :
  listSection h field render data = Some sect →
  (∀ i o, headings (render i o) = []) →
  concat (map headings sect)
  = if (0 <? length (entries field data))%nat then [h] else [].
Proof.
  unfold listSection, map_array. intros Hsect Hnil.
  destruct (0 <? length (entries field data))%nat.
  - destruct (map_from _ _ _) as [children|] eqn:Hmap; [|done].
    cbn in Hsect. injection Hsect as <-. cbn.
    by rewrite (map_from_nil headings render 0 _ children Hmap Hnil).
  - by injection Hsect as <-.
Qed.



Ltac entry_cases :=
  intros i o r;
  unfold entry_rule, Template1_experience, Template1_education,
    Template2_experience, Template2_education, projectCard, prop;
  repeat match goal with
         | |- context [truthy_prop (o !! ?k)] =>
             destruct (o !! k) as [[|? ?]|] eqn:?
         end;
  cbn; set_unfold; naive_solver.

Lemma Template1_experience_refs :
  shows_entry Kind.experience Template1_experience.
Proof. entry_cases. Qed.

Lemma Template2_experience_refs :
  shows_entry Kind.experience Template2_experience.
Proof. entry_cases. Qed.

Lemma Template1_education_refs :
  shows_entry Kind.education Template1_education.
Proof. entry_cases. Qed.

Lemma Template2_education_refs :
  shows_entry Kind.education Template2_education.
Proof. entry_cases. Qed.

Lemma projectCard_refs : shows_entry Kind.projects projectCard.
Proof. entry_cases. Qed.

Ltac no_headings :=
  intros i o;
  unfold Template1_experience, Template1_education,
    Template2_experience, Template2_education, projectCard, prop;
  repeat match goal with
         | |- context [truthy_prop (o !! ?k)] =>
             destruct (o !! k) as [[|? ?]|] eqn:?
         end;
  reflexivity.

Lemma Template1_experience_headings i o :
  headings (Template1_experience i o) = [].
Proof. revert i o. no_headings. Qed.
Lemma Template2_experience_headings i o :
  headings (Template2_experience i o) = [].
Proof. revert i o. no_headings. Qed.
Lemma Template1_education_headings i o :
  headings (Template1_education i o) = [].
Proof. revert i o. no_headings. Qed.
Lemma Template2_education_headings i o :
  headings (Template2_education i o) = [].
Proof. revert i o. no_headings. Qed.
Lemma projectCard_headings i o : headings (projectCard i o) = [].
Proof. revert i o. no_headings. Qed.

(** The references of a section of a list are those of the rule. *)
Lemma listSection_included (h : string) (field : Kind.t)
    (render : nat → object → node) (data : PortfolioData) (sect : list node)
    (r : Ref) :
  shows_entry field render →
  listSection h field render data = Some sect →
  r ∈ concat (map refs sect)
  ↔ ∃ i key, r = Entry field i key ∧ included data r.
Proof.
  intros Hrender Hsect. rewrite (listSection_refs _ _ _ _ _ _ Hsect).
  split.
  - intros (i & o & Hi & (key & -> & Hkey)%Hrender). exists i, key.
    split; [done|]. cbn. eauto.
  - intros (i & key & -> & (o & Hi & Hkey)). exists i, o. split; [done|].
    apply Hrender. eauto.
Qed.

Lemma skillTags_refs (data : PortfolioData) (r : Ref) :
  r ∈ concat (map refs (skillTags data))
  ↔ ∃ i, r = Skill i ∧ (i < length (skills data))%nat.
Proof.
  unfold skillTags.
  assert (∀ (l : list jsstring) k,
            concat (map refs
              (imap (λ index skill,
                       El Tag.span [Show (Skill (k + index)) (Some skill)]) l))
            = map Skill (seq k (length l))) as Himap.
  { induction l as [|s l IH]; intros k; [done|]. cbn.
    rewrite Nat.add_0_r. f_equal. rewrite <- (IH (S k)). do 2 f_equal.
    apply imap_ext. intros i x _. cbn. by rewrite Nat.add_succ_r. }
  specialize (Himap (skills data) 0%nat). cbn [Nat.add] in Himap.
  rewrite Himap, list_elem_of_fmap.
  setoid_rewrite elem_of_seq. split.
  - intros (i & -> & _ & Hi). eauto.
  - intros (i & -> & Hi). exists i. split; [done|lia].
Qed.

Lemma refs_El (tag : Tag.t) (children : list node) :
  refs (El tag children) = concat (map refs children).
Proof. done. Qed.

Lemma headings_El (tag : Tag.t) (children : list node) :
  headings (El tag children)
  = caption tag children ++ concat (map headings children).
Proof. done. Qed.

Section children.
Context {X : Type} (f : node → list X).

Lemma children_nil : concat (map f []) = [].
Proof. done. Qed.

Lemma children_cons (n : node) (l : list node) :
  concat (map f (n :: l)) = f n ++ concat (map f l).
Proof. done. Qed.

Lemma children_app (l1 l2 : list node) :
  concat (map f (l1 ++ l2)) = concat (map f l1) ++ concat (map f l2).
Proof. by rewrite map_app, concat_app. Qed.

Lemma children_when (c : bool) (n : node) :
  concat (map f (when c [n])) = if c then f n else [].
Proof. destruct c; [apply app_nil_r|done]. Qed.
End children.

Lemma length_pos {X} (l : list X) : (0 <? length l)%nat = true ↔ l ≠ [].
Proof. by destruct l. Qed.

Lemma skillTags_headings (data : PortfolioData) :
  concat (map headings (skillTags data)) = [].
Proof.
  unfold skillTags. generalize 0%nat. 
  assert (∀ (l : list jsstring) (g : nat → nat),
            concat (map headings
              (imap (λ index skill,
                       El Tag.span [Show (Skill (g index)) (Some skill)]) l))
            = []) as Himap.
  { induction l as [|s l IH]; intros g; [done|]. cbn.
    apply (IH (g ∘ S)). }
  intros _. apply (Himap (skills data) id).
Qed.

#[local] Instance set_unfold_if {X} (c : bool) (x : X) (l : list X) (P : Prop) :
  SetUnfoldElemOf x l P →
  SetUnfoldElemOf x (if c then l else []) (c = true ∧ P).
Proof.
  intros [HP]. constructor. destruct c.
  - rewrite HP. naive_solver.
  - split; [by intros ?%elem_of_nil|by intros [? _]].
Qed.

Ltac open_children :=
  repeat (progress
    rewrite ?refs_El, ?headings_El, ?children_nil, ?children_cons,
      ?children_app, ?children_when, ?skillTags_headings).

#[local] Instance set_unfold_skillTags (data : PortfolioData) (r : Ref) :
  SetUnfoldElemOf r (concat (map refs (skillTags data)))
    (∃ i, r = Skill i ∧ (i < length (skills data))%nat).
Proof. constructor. apply skillTags_refs. Qed.

Lemma listSection_unfold (h : string) (field : Kind.t)
    (render : nat → object → node) (data : PortfolioData) (sect : list node) :
  shows_entry field render →
  listSection h field render data = Some sect →
  ∀ r, SetUnfoldElemOf r (concat (map refs sect))
         (∃ i key, r = Entry field i key ∧ included data r).
Proof. intros ?? r. constructor. by eapply listSection_included. Qed.

Ltac template_follows_rule Hexp Hedu Hexp' Hedu' :=
  intros Ht;
  destruct (listSection "Experience" _ _ _) as [s1|] eqn:H1; [|done];
  destruct (listSection "Education" _ _ _) as [s2|] eqn:H2; [|done];
  destruct (listSection "Projects" _ _ _) as [s3|] eqn:H3; [|done];
  cbn [mbind option_bind] in Ht; injection Ht as <-;
  pose proof (listSection_headings _ _ _ _ _ H1 Hexp') as H1';
  pose proof (listSection_headings _ _ _ _ _ H2 Hedu') as H2';
  pose proof (listSection_headings _ _ _ _ _ H3 projectCard_headings) as H3';
  pose proof (listSection_unfold _ _ _ _ _ Hexp H1);
  pose proof (listSection_unfold _ _ _ _ _ Hedu H2);
  pose proof (listSection_unfold _ _ _ _ _ projectCard_refs H3);
  unfold follows_rule, contact; split; [|split];
  [ intros r; open_children; cbn [refs show concat map app];
    set_unfold; rewrite !truthy_spec, length_pos;
    repeat match goal with H : _ |- _ => clear H end;
    destruct r as [key|i|field i key];
    [ destruct key; cbn [included]; naive_solver
    | cbn [included]; destruct (skills _); cbn [length]; naive_solver lia
    | destruct field; naive_solver ]
  | intros field; open_children; rewrite H1', H2', H3';
    cbn [headings caption concat map app show entries];
    set_unfold; rewrite !length_pos;
    destruct field; cbn [heading entries]; intuition congruence
  | open_children; rewrite H1', H2', H3';
    cbn [headings caption concat map app show entries];
    set_unfold; rewrite !length_pos; intuition congruence ].

Lemma Template1_follows_rule (data : PortfolioData) (t : node) :
  Template1 data = Some t → follows_rule data t.
Proof.
  unfold Template1.
  template_follows_rule Template1_experience_refs Template1_education_refs
    Template1_experience_headings Template1_education_headings.
Qed.

Lemma Template2_follows_rule (data : PortfolioData) (t : node) :
  Template2 data = Some t → follows_rule data t.
Proof.
  unfold Template2.
  template_follows_rule Template2_experience_refs Template2_education_refs
    Template2_experience_headings Template2_education_headings.
Qed.

Ltac template_headings Hexp' Hedu' :=
  intros Ht;
  destruct (listSection "Experience" _ _ _) as [s1|] eqn:H1; [|done];
  destruct (listSection "Education" _ _ _) as [s2|] eqn:H2; [|done];
  destruct (listSection "Projects" _ _ _) as [s3|] eqn:H3; [|done];
  cbn [mbind option_bind] in Ht; injection Ht as <-;
  pose proof (listSection_headings _ _ _ _ _ H1 Hexp') as H1';
  pose proof (listSection_headings _ _ _ _ _ H2 Hedu') as H2';
  pose proof (listSection_headings _ _ _ _ _ H3 projectCard_headings) as H3';
  unfold contact; open_children; rewrite H1', H2', H3';
  cbn [headings caption concat map app show entries];
  set_unfold; intuition congruence.

(** X21. What does differ is the grouping: [Template1] lists the four profile
    links under a caption of their own, [Template2] puts them in the header
    without one. *)
Lemma social_caption (data : PortfolioData) (t1 t2 : node) :
  Template1 data = Some t1 →
  Template2 data = Some t2 →
  "Social"%string ∈ headings t1 ∧ "Social"%string ∉ headings t2.
Proof.
  intros Ht1 Ht2. split.
  - revert Ht1. unfold Template1.
    template_headings Template1_experience_headings
      Template1_education_headings.
  - revert Ht2. unfold Template2.
    template_headings Template2_experience_headings
      Template2_education_headings.
Qed.

Lemma map_from_defined (render : nat → object → node) (k : nat) (a : array) :
  objects a → is_Some (map_from k (entry render) a).
Proof.
  intros Ha. revert k. induction Ha as [|slot a [o ->] _ IH]; intros k; cbn.
  - eauto.
  - destruct (IH (S k)) as [bs ->]. cbn. eauto.
Qed.

Lemma listSection_defined (h : string) (field : Kind.t)
    (render : nat → object → node) (data : PortfolioData) :
  objects (entries field data) → is_Some (listSection h field render data).
Proof.
  intros Ha. unfold listSection, map_array.
  destruct (0 <? length (entries field data))%nat; [|eauto].
  destruct (map_from_defined render 0 _ Ha) as [children ->]. cbn. eauto.
Qed.

(** On a record whose lists hold entries only, both templates render. *)
Lemma templates_defined (data : PortfolioData) :
  entries_only data → is_Some (Template1 data) ∧ is_Some (Template2 data).
Proof.
  intros Ha. unfold Template1, Template2. split.
  - destruct (listSection_defined "Experience" _ Template1_experience data
                (Ha Kind.experience)) as [s1 ->].
    destruct (listSection_defined "Education" _ Template1_education data
                (Ha Kind.education)) as [s2 ->].
    destruct (listSection_defined "Projects" _ projectCard data
                (Ha Kind.projects)) as [s3 ->].
    cbn. eauto.
  - destruct (listSection_defined "Experience" _ Template2_experience data
                (Ha Kind.experience)) as [s1 ->].
    destruct (listSection_defined "Education" _ Template2_education data
                (Ha Kind.education)) as [s2 ->].
    destruct (listSection_defined "Projects" _ projectCard data
                (Ha Kind.projects)) as [s3 ->].
    cbn. eauto.
Qed.

Lemma filter_from_objects (k : nat) (keep : value → nat → bool) (a : array) :
  objects a → objects (filter_from k keep a).
Proof.
  intros Ha. revert k. induction Ha as [|slot a [o ->] _ IH]; intros k; cbn.
  - constructor.
  - destruct (keep (obj o) k); [constructor; eauto|]; apply IH.
Qed.

Lemma objects_dense (a : array) : objects a → dense a.
Proof.
  intros Ha. eapply Forall_impl; [done|]. intros slot [o ->]. by eexists.
Qed.

Lemma entries_with_scalar (field : Kind.t) (input : Input.t) (v : jsstring)
    (data : FormData) :
  entries field (with_scalar input v data) = entries field data.
Proof. by destruct field. Qed.

Lemma entries_with_skills {S T} (field : Kind.t) (s : T) (data : Portfolio S) :
  entries field (with_skills s data) = entries field data.
Proof. by destruct field. Qed.

Lemma handleChange_entries_only input v (formData : FormData) :
  entries_only formData →
  entries_only (PortfolioForm.handleChange input v formData).
Proof.
  intros H field. unfold PortfolioForm.handleChange.
  rewrite entries_with_scalar. apply H.
Qed.

Lemma with_entries_only {S} (field : Kind.t) (a : array) (data : Portfolio S) :
  entries_only data → objects a → entries_only (with_entries field a data).
Proof.
  intros H Ha field'. rewrite entries_with_entries.
  case_decide; [done|apply H].
Qed.

Lemma handleArrayChange_entries_only index field subField v
    (formData : FormData) :
  rendered field index formData = true →
  entries_only formData →
  entries_only
    (PortfolioForm.handleArrayChange index field subField v formData).
Proof.
  unfold rendered. intros [Hpos Hslot]%andb_prop H.
  apply Z.leb_le in Hpos.
  destruct (entries field formData !! Z.to_nat index) as [slot|] eqn:Hi;
    [|done].
  unfold PortfolioForm.handleArrayChange.
  apply with_entries_only; [done|].
  rewrite spread_dense by apply objects_dense, H.
  rewrite assign_inside.
  - apply Forall_insert; [apply H|eauto].
  - apply lookup_lt_Some in Hi. lia.
Qed.

Lemma addEntry_entries_only field (formData : FormData) :
  entries_only formData → entries_only (PortfolioForm.addEntry field formData).
Proof.
  intros H. unfold PortfolioForm.addEntry. apply with_entries_only; [done|].
  rewrite spread_dense by apply objects_dense, H.
  apply Forall_app. split; [apply H|]. apply Forall_singleton. eauto.
Qed.

Lemma removeEntry_entries_only field index (formData : FormData) :
  entries_only formData →
  entries_only (PortfolioForm.removeEntry field index formData).
Proof.
  intros H. unfold PortfolioForm.removeEntry.
  apply with_entries_only; [done|]. apply filter_from_objects, H.
Qed.

Lemma initial_entries_only : entries_only PortfolioForm.initial.
Proof. intros []; constructor. Qed.

Lemma commit_entries_only (app' : App.State) (form0 : option FormData) :
  (∀ formData, form0 = Some formData → entries_only formData) →
  (∀ data, App.portfolioData app' = Some data → entries_only data) →
  system_entries_only (commit app' form0).
Proof.
  intros Hform Hdata. split; [|done]. unfold commit. cbn.
  destruct (App.displayMode app'); try done.
  intros formData [= <-]. destruct form0 as [formData|]; cbn; [eauto|].
  apply initial_entries_only.
Qed.

Lemma step_entries_only (e : Event) (σ σ' : System) :
  system_entries_only σ → step e σ = Some σ' → system_entries_only σ'.
Proof.
  intros [Hform Hdata] Hstep. unfold step in Hstep.
  destruct (App.displayMode (app σ)), (form σ) as [formData|] eqn:Hf, e;
    try discriminate Hstep;
    repeat match type of Hstep with
           | (if ?b then _ else _) = _ =>
               destruct b eqn:?; try discriminate Hstep
           end;
    injection Hstep as <-;
    first [ apply commit_entries_only; cbn; try done;
            intros data [= <-] field;
            unfold PortfolioForm.handleSubmit;
            rewrite entries_with_skills; by apply Hform
          | split; [|done]; cbn; intros ? [= <-];
            first [ by apply handleChange_entries_only, Hform
                  | by apply handleArrayChange_entries_only; [|apply Hform]
                  | by apply addEntry_entries_only, Hform
                  | by apply removeEntry_entries_only, Hform ] ].
Qed.

(** Whatever the user does, the lists of the draft and of the record hold
    entries only: no holes and no [undefined]. *)
Lemma reachable_entries_only (σ : System) :
  reachable σ → system_entries_only σ.
Proof.
  induction 1 as [|σ e σ' _ IH Hstep].
  - split; [|done]. intros formData [= <-]. apply initial_entries_only.
  - by eapply step_entries_only.
Qed.

(** Every record the application holds renders under both templates. *)
Lemma reachable_renders (σ : System) (data : PortfolioData) :
  reachable σ →
  App.portfolioData (app σ) = Some data →
  is_Some (Template1 data) ∧ is_Some (Template2 data).
Proof.
  intros [_ Hdata]%reachable_entries_only Hd.
  by apply templates_defined, Hdata.
Qed.

(** Every reachable draft list is dense, as the properties of removal,
    appending and positional update above assume. *)
Lemma reachable_dense (σ : System) (formData : FormData) (field : Kind.t) :
  reachable σ → form σ = Some formData → dense (entries field formData).
Proof.
  intros [Hform _]%reachable_entries_only Hf.
  by apply objects_dense, Hform.
Qed.

(** C3. Both templates follow the same inclusion rule.  Each shows exactly
    the values the rule includes, so the two show the same values; each has
    the section of a list exactly when that list is non-empty and the skills
    section exactly when there are skills; and each shows the description
    of an education entry, and the technologies and the two URLs of a
    project, exactly when they are non-empty.  The full page is one of the
    two, whatever the template identifier. *)
Theorem templates_share_inclusion_rule (data : PortfolioData) (t1 t2 : node) :
  Template1 data = Some t1 →
  Template2 data = Some t2 →
  follows_rule data t1 ∧ follows_rule data t2
  ∧ (∀ r, r ∈ refs t1 ↔ r ∈ refs t2)
  ∧ (∀ field, heading field ∈ headings t1 ↔ heading field ∈ headings t2)
  ∧ ("Skills"%string ∈ headings t1 ↔ "Skills"%string ∈ headings t2)
  ∧ (∀ field index key,
       optional field key = true →
       ∀ t, t = t1 ∨ t = t2 →
       Entry field index key ∈ refs t
       ↔ ∃ o c s, entries field data !! index = Some (Some (obj o))
                  ∧ o !! key = Some (c :: s))
  ∧ (∀ template,
       PortfolioPage data template = Some t1
       ∨ PortfolioPage data template = Some t2).
Proof.
  intros Ht1 Ht2.
  pose proof (Template1_follows_rule data t1 Ht1) as H1.
  pose proof (Template2_follows_rule data t2 Ht2) as H2.
  split; [done|]. split; [done|].
  destruct H1 as (Hr1 & Hh1 & Hs1), H2 as (Hr2 & Hh2 & Hs2).
  split; [by intros r; rewrite Hr1, Hr2|].
  split; [by intros field; rewrite Hh1, Hh2|].
  split; [by rewrite Hs1, Hs2|]. split.
  - intros field index key Hopt t Ht.
    assert (Entry field index key ∈ refs t
            ↔ included data (Entry field index key)) as ->
      by (by destruct Ht as [-> | ->]).
    cbn. unfold entry_rule. split.
    + intros (o & Ho & _ & Hkey). destruct (Hkey Hopt) as (c & s & Hs).
      eauto.
    + intros (o & c & s & Ho & Hs). exists o. split; [done|].
      split; [|eauto]. destruct field, key; try done; cbn; set_solver.
  - intros template. unfold PortfolioPage. case_bool_decide; auto.
Qed.


Lemma templates_share_inclusion_rule_witness :
  ∃ t1 t2,
    Template1 sample = Some t1
    ∧ Template2 sample = Some t2
    ∧ (∀ r, r ∈ refs t1 ↔ r ∈ refs t2)
    ∧ Entry Kind.projects 0 Key.githubUrl ∈ refs t2
    ∧ Entry Kind.projects 0 Key.projectUrl ∉ refs t1.
Proof.
  eexists _, _. split; [vm_compute; reflexivity|].
  split; [vm_compute; reflexivity|].
  match goal with
  | |- (∀ r, r ∈ refs ?t1 ↔ r ∈ refs ?t2) ∧ _ =>
      assert (Template1 sample = Some t1) as H1 by (vm_compute; reflexivity);
      assert (Template2 sample = Some t2) as H2 by (vm_compute; reflexivity);
      destruct (templates_share_inclusion_rule sample t1 t2 H1 H2)
        as (_ & _ & Hrefs & _ & _ & Hopt & _)
  end.
  split; [done|]. split.
  - apply (Hopt Kind.projects 0%nat Key.githubUrl); [done|by right|].
    eexists _, _, _. split; vm_compute; reflexivity.
  - rewrite (Hopt Kind.projects 0%nat Key.projectUrl); [|done|by left].
    intros (o & c & s & Ho & Hs). vm_compute in Ho.
    injection Ho as <-. by vm_compute in Hs.
Defined.

(** C10. The links of the summary card are those to the linkedin, github and
    website URLs, each present exactly when the URL is non-empty.  The card
    shows nothing of the twitter URL, empty or not. *)
Theorem ProfileCard_links (data : PortfolioData) :
  (∀ r href,
     (r, href) ∈ links (ProfileCard data)
     ↔ href ≠ []
       ∧ (r = Scalar Input.linkedin ∧ href = linkedin data
          ∨ r = Scalar Input.github ∧ href = github data
          ∨ r = Scalar Input.website ∧ href = website data))
  ∧ Scalar Input.twitter ∉ refs (ProfileCard data).
Proof.
  split.
  - intros r href. unfold ProfileCard. cbn [links map concat].
    destruct (linkedin data), (github data), (website data); cbn;
      set_solver.
  - unfold ProfileCard. cbn [refs map concat show].
    destruct (linkedin data), (github data), (website data); cbn;
      set_solver.
Qed.

(** ** More on the editor *)

Lemma drafting_reachable : reachable drafting.
Proof.
  apply (run_reachable (take 5 session) initialSystem); [constructor|].
  vm_compute. reflexivity.
Qed.

Lemma summary_reachable : reachable summary.
Proof.
  apply (run_reachable (take 6 session) initialSystem); [constructor|].
  vm_compute. reflexivity.
Qed.

Lemma scalar_with_scalar (input input' : Input.t) (v : jsstring)
    (data : FormData) :
  scalar input' (with_scalar input v data)
  = if decide (input' = input) then v else scalar input' data.
Proof. destruct input'; reflexivity. Qed.

Lemma draft_eq (d1 d2 : FormData) :
  (∀ input, scalar input d1 = scalar input d2) →
  (∀ field, entries field d1 = entries field d2) →
  d1 = d2.
Proof.
  intros Hs He. destruct d1, d2.
  pose proof (Hs Input.name). pose proof (Hs Input.title).
  pose proof (Hs Input.email). pose proof (Hs Input.phone).
  pose proof (Hs Input.location). pose proof (Hs Input.bio).
  pose proof (Hs Input.profilePicture). pose proof (Hs Input.linkedin).
  pose proof (Hs Input.github). pose proof (Hs Input.website).
  pose proof (Hs Input.twitter). pose proof (Hs Input.skills).
  pose proof (He Kind.experience). pose proof (He Kind.education).
  pose proof (He Kind.projects). cbn in *. by subst.
Qed.

(** X1. [handleChange] sets the field its input names to the value typed and
    leaves every other scalar field and the three lists as they were. *)
Theorem handleChange_sets (input : Input.t) (value : jsstring)
    (formData : FormData) :
  let formData' := PortfolioForm.handleChange input value formData in
  scalar input formData' = value
  ∧ (∀ input', input' ≠ input → scalar input' formData' = scalar input' formData)
  ∧ (∀ field, entries field formData' = entries field formData).
Proof.
  unfold PortfolioForm.handleChange. split; [|split].
  - by rewrite scalar_with_scalar, decide_True.
  - intros input' Hne. by rewrite scalar_with_scalar, decide_False.
  - intros field. apply entries_with_scalar.
Qed.

(** X2. Of two changes to the same field the later one wins; writing back the
    value a field holds changes nothing; changes to different fields can be
    made in either order. *)
Theorem handleChange_composes (input input' : Input.t) (v w : jsstring)
    (formData : FormData) :
  PortfolioForm.handleChange input w
    (PortfolioForm.handleChange input v formData)
  = PortfolioForm.handleChange input w formData
  ∧ PortfolioForm.handleChange input (scalar input formData) formData
    = formData
  ∧ (input ≠ input' →
     PortfolioForm.handleChange input v
       (PortfolioForm.handleChange input' w formData)
     = PortfolioForm.handleChange input' w
         (PortfolioForm.handleChange input v formData)).
Proof.
  unfold PortfolioForm.handleChange.
  split; [|split; [|intros Hne]]; apply draft_eq; intros x;
    rewrite ?entries_with_scalar, ?scalar_with_scalar; try done;
    repeat case_decide; congruence.
Qed.

Lemma at_index_spread (a : array) (index : Z) :
  at_index (spread a) index = at_index a index.
Proof.
  unfold at_index, spread. destruct (index <? 0); [done|].
  rewrite list_lookup_fmap. by destruct (a !! Z.to_nat index) as [[x|]|].
Qed.

Lemma at_index_nat (a : array) (j : nat) :
  at_index a (Z.of_nat j) = default undefined (mjoin (a !! j)).
Proof.
  unfold at_index. destruct (Z.ltb_spec (Z.of_nat j) 0); [lia|].
  by rewrite Nat2Z.id.
Qed.

(** X3. After a positional update, on any list, at a position that is not
    negative and is inside the list or an array index (at most 2^32 - 2), the
    position holds an entry whose updated sub-field is the new value and
    whose other sub-fields are those of what was there before; the list is as
    long as before or reaches just past the position, and the other positions
    that existed read as they did.  At every other position (a negative one,
    or one past the end and above the largest array index) the list keeps its
    length and every position reads as it did. *)
Theorem handleArrayChange_reads (index : Z) (field : Kind.t) (subField : Key.t)
    (value : jsstring) (formData : FormData) :
  let a := entries field formData in
  let a' :=
    entries field
      (PortfolioForm.handleArrayChange index field subField value formData) in
  (0 ≤ index → index < Z.of_nat (length a) ∨ index ≤ maxIndex →
   ∃ o,
     a' !! Z.to_nat index = Some (Some (obj o))
     ∧ o !! subField = Some value
     ∧ (∀ key, key ≠ subField → o !! key = props (at_index a index) !! key)
     ∧ length a' = (length a `max` (Z.to_nat index + 1))%nat
     ∧ (∀ j : nat, (j < length a)%nat → j ≠ Z.to_nat index →
          a' !! j = Some (Some (at_index a (Z.of_nat j)))))
  ∧ (index < 0 ∨ (Z.of_nat (length a) ≤ index ∧ maxIndex < index) →
     length a' = length a
     ∧ ∀ j : nat, (j < length a)%nat →
         a' !! j = Some (Some (at_index a (Z.of_nat j)))).
Proof.
  intros a a'. subst a'. unfold PortfolioForm.handleArrayChange.
  fold a. rewrite entries_with_entries, decide_True, at_index_spread by done.
  assert (∀ j : nat, (j < length a)%nat →
            spread a !! j = Some (Some (at_index a (Z.of_nat j)))) as Hsp.
  { intros j Hj. rewrite at_index_nat. unfold spread.
    rewrite list_lookup_fmap.
    destruct (lookup_lt_is_Some_2 a j Hj) as [slot ->]. by destruct slot. }
  split.
  - intros Hpos Hidx.
    exists (<[subField := value]> (props (at_index a index))).
    destruct (Z.lt_ge_cases index (Z.of_nat (length a))) as [Hin|Hout].
    + rewrite assign_inside by (rewrite length_spread; lia).
      split; [by rewrite list_lookup_insert_eq by (rewrite length_spread; lia)|].
      split; [by rewrite lookup_insert_eq|].
      split; [by intros key Hkey; rewrite lookup_insert_ne|].
      split; [rewrite length_insert, length_spread; lia|].
      intros j Hj Hne. rewrite list_lookup_insert_ne by done. by apply Hsp.
    + rewrite assign_outside by (rewrite length_spread; lia).
      rewrite length_spread. split.
      { rewrite app_assoc, lookup_app_r;
          rewrite length_app, length_replicate, length_spread; [|lia].
        by replace
             (Z.to_nat index - (length a + (Z.to_nat index - length a)))%nat
          with 0%nat by lia. }
      split; [by rewrite lookup_insert_eq|].
      split; [by intros key Hkey; rewrite lookup_insert_ne|].
      split; [rewrite !length_app, length_replicate, length_spread; cbn; lia|].
      intros j Hj Hne. rewrite lookup_app_l by by rewrite length_spread.
      by apply Hsp.
  - intros Hout.
    assert (assign (spread a) index
              (obj (<[subField := value]> (props (at_index a index))))
            = spread a) as ->.
    { destruct Hout as [Hneg|[Hlen Hmax]].
      - by apply assign_negative.
      - apply assign_beyond; [by rewrite length_spread|done]. }
    by rewrite length_spread.
Qed.

Lemma handleArrayChange_reads_witness :
  let formData :=
    with_entries Kind.projects [Some (obj {[Key.name := str "site"]}); None]
      PortfolioForm.initial in
  (∃ o,
     entries Kind.projects
       (PortfolioForm.handleArrayChange 3 Kind.projects Key.technologies
          (str "Rocq") formData) !! Z.to_nat 3
     = Some (Some (obj o))
     ∧ o !! Key.technologies = Some (str "Rocq"))
  ∧ length
      (entries Kind.projects
         (PortfolioForm.handleArrayChange 4294967295 Kind.projects
            Key.technologies (str "Rocq") formData))
    = 2%nat.
Proof.
  intros formData. split.
  - destruct (handleArrayChange_reads 3 Kind.projects Key.technologies
                (str "Rocq") formData) as [Hin _].
    destruct Hin as (o & Ho & Hkey & _); [lia|right; unfold maxIndex; lia|].
    eauto.
  - destruct (handleArrayChange_reads 4294967295 Kind.projects
                Key.technologies (str "Rocq") formData) as [_ Hout].
    destruct Hout as [-> _]; [|done].
    right. unfold maxIndex. cbn. lia.
Defined.

Lemma handleArrayChange_inside (index : Z) (field : Kind.t) (subField : Key.t)
    (value : jsstring) (formData : FormData) :
  dense (entries field formData) →
  0 ≤ index < Z.of_nat (length (entries field formData)) →
  PortfolioForm.handleArrayChange index field subField value formData
  = with_entries field
      (<[Z.to_nat index :=
           Some (obj (<[subField := value]>
                        (props (at_index (entries field formData) index))))]>
         (entries field formData))
      formData.
Proof.
  intros Ha Hin. unfold PortfolioForm.handleArrayChange.
  by rewrite spread_dense, assign_inside.
Qed.

Lemma dense_insert (a : array) (i : nat) (x : value) :
  dense a → dense (<[i := Some x]> a).
Proof. intros Ha. apply Forall_insert; [done|by eexists]. Qed.

Lemma at_index_insert (a : array) (index index' : Z) (x : value) :
  0 ≤ index < Z.of_nat (length a) → 0 ≤ index' →
  at_index (<[Z.to_nat index := Some x]> a) index'
  = if decide (index' = index) then x else at_index a index'.
Proof.
  intros Hin Hpos. unfold at_index. destruct (Z.ltb_spec index' 0); [lia|].
  case_decide as Heq.
  - subst. by rewrite list_lookup_insert_eq by lia.
  - by rewrite list_lookup_insert_ne by lia.
Qed.

(** X4. On a list without holes whose length is an array index (at most
    2^32 - 2), the positional update at the position just past the end is the
    same as appending an entry and updating it.  On a longer list the update
    at that position changes nothing. *)
Theorem handleArrayChange_at_end (field : Kind.t) (subField : Key.t)
    (value : jsstring) (formData : FormData) :
  let n := Z.of_nat (length (entries field formData)) in
  dense (entries field formData) →
  (n ≤ maxIndex →
   PortfolioForm.handleArrayChange n field subField value formData
   = PortfolioForm.handleArrayChange n field subField value
       (PortfolioForm.addEntry field formData))
  ∧ (maxIndex < n →
     PortfolioForm.handleArrayChange n field subField value formData
     = formData).
Proof.
  intros n Ha. split; [intros Hn|intros Hn]; cycle 1.
  { unfold PortfolioForm.handleArrayChange.
    rewrite spread_dense, assign_beyond by (done || lia).
    apply with_entries_id. }
  assert (PortfolioForm.handleArrayChange n field subField value formData
          = with_entries field
              (entries field formData ++ [Some (obj {[subField := value]})])
              formData) as ->.
  { unfold PortfolioForm.handleArrayChange.
    rewrite spread_dense, assign_outside, at_index_outside by (done || lia).
    subst n. rewrite Nat2Z.id, Nat.sub_diag. cbn [props replicate app].
    by rewrite insert_empty. }
  assert (entries field (PortfolioForm.addEntry field formData)
          = entries field formData ++ [Some (obj ∅)]) as Hadd.
  { unfold PortfolioForm.addEntry.
    by rewrite entries_with_entries, decide_True, spread_dense. }
  rewrite handleArrayChange_inside; rewrite Hadd.
  - unfold PortfolioForm.addEntry. rewrite with_entries_twice.
    f_equal. subst n. rewrite Nat2Z.id.
    rewrite at_index_nat, lookup_app_r, Nat.sub_diag by done. cbn.
    rewrite insert_empty.
    rewrite <- (Nat.add_0_r (length (entries field formData))) at 1.
    by rewrite insert_app_r.
  - apply Forall_app. split; [done|]. apply Forall_singleton. by eexists.
  - rewrite length_app. cbn. lia.
Qed.

Lemma handleArrayChange_at_end_witness :
  let formData :=
    with_entries Kind.education [Some (obj {[Key.degree := str "BSc"]})]
      PortfolioForm.initial in
  PortfolioForm.handleArrayChange 1 Kind.education Key.degree (str "MSc")
    formData
  = PortfolioForm.handleArrayChange 1 Kind.education Key.degree (str "MSc")
      (PortfolioForm.addEntry Kind.education formData).
Proof.
  intros formData.
  apply (handleArrayChange_at_end Kind.education Key.degree (str "MSc")
           formData); [solve_dense|unfold maxIndex; cbn; lia].
Defined.

(** X5. On a list without holes and at positions inside it, of two updates
    of the same sub-field of the same entry the later one wins, and updates
    of different sub-fields or of different entries can be made in either
    order. *)
Theorem handleArrayChange_composes (index index' : Z) (field : Kind.t)
    (key key' : Key.t) (v w : jsstring) (formData : FormData) :
  let change := PortfolioForm.handleArrayChange in
  dense (entries field formData) →
  0 ≤ index < Z.of_nat (length (entries field formData)) →
  0 ≤ index' < Z.of_nat (length (entries field formData)) →
  change index field key w (change index field key v formData)
  = change index field key w formData
  ∧ (index ≠ index' ∨ key ≠ key' →
     change index field key v (change index' field key' w formData)
     = change index' field key' w (change index field key v formData)).
Proof.
  intros change Ha Hin Hin'. subst change.
  set (a := entries field formData) in *.
  assert (∀ i k x, 0 ≤ i < Z.of_nat (length a) →
            entries field
              (PortfolioForm.handleArrayChange i field k x formData)
            = <[Z.to_nat i :=
                  Some (obj (<[k := x]> (props (at_index a i))))]> a) as Hent.
  { intros i k x Hi. rewrite handleArrayChange_inside by done.
    by rewrite entries_with_entries, decide_True. }
  assert (∀ i k x j l y,
            0 ≤ i < Z.of_nat (length a) → 0 ≤ j < Z.of_nat (length a) →
            PortfolioForm.handleArrayChange j field l y
              (PortfolioForm.handleArrayChange i field k x formData)
            = with_entries field
                (<[Z.to_nat j :=
                     Some (obj (<[l := y]>
                       (props (if decide (j = i)
                               then obj (<[k := x]> (props (at_index a i)))
                               else at_index a j))))]>
                   (<[Z.to_nat i :=
                        Some (obj (<[k := x]> (props (at_index a i))))]> a))
                formData) as Htwo.
  { intros i k x j l y Hi Hj.
    rewrite (handleArrayChange_inside j); rewrite !Hent by done.
    - rewrite at_index_insert by lia.
      rewrite (handleArrayChange_inside i) by done.
      by rewrite with_entries_twice.
    - by apply dense_insert.
    - by rewrite length_insert. }
  split.
  - rewrite Htwo, decide_True by done. cbn [props].
    rewrite list_insert_insert_eq, insert_insert_eq.
    by rewrite handleArrayChange_inside.
  - intros Hne. rewrite !Htwo by done. f_equal.
    destruct (decide (index = index')) as [<-|Hidx].
    + destruct Hne as [?|Hkey]; [done|].
      rewrite !decide_True by done. cbn [props].
      rewrite !list_insert_insert_eq. do 3 f_equal.
      by apply insert_insert_ne.
    + rewrite !decide_False by done.
      apply list_insert_insert_ne. lia.
Qed.

Lemma handleArrayChange_composes_witness :
  let formData :=
    with_entries Kind.experience
      [Some (obj {[Key.title := str "dev"]}); Some (obj ∅)]
      PortfolioForm.initial in
  let change := PortfolioForm.handleArrayChange in
  change 0 Kind.experience Key.title (str "lead")
    (change 1 Kind.experience Key.company (str "Corp") formData)
  = change 1 Kind.experience Key.company (str "Corp")
      (change 0 Kind.experience Key.title (str "lead") formData).
Proof.
  intros formData change.
  assert (dense (entries Kind.experience formData)) as Ha by solve_dense.
  destruct (handleArrayChange_composes 0 1 Kind.experience Key.title
              Key.company (str "lead") (str "Corp") formData Ha)
    as [_ Hcomm]; [cbn; lia|cbn; lia|].
  apply Hcomm. left. lia.
Defined.

Lemma filter_from_dense (k : nat) (keep : value → nat → bool) (a : array) :
  dense (filter_from k keep a).
Proof.
  revert k. induction a as [|[x|] a IH]; intros k; cbn.
  - constructor.
  - destruct (keep x k); [|apply IH]. constructor; [by eexists|apply IH].
  - apply IH.
Qed.

Lemma filter_from_sublist (k : nat) (keep : value → nat → bool) (a : array) :
  filter_from k keep a `sublist_of` a.
Proof.
  revert k. induction a as [|[x|] a IH]; intros k; cbn.
  - done.
  - destruct (keep x k); [apply sublist_skip|apply sublist_cons]; apply IH.
  - apply sublist_cons, IH.
Qed.

Lemma filter_from_shorter (k : nat) (index : Z) (a : array) (x : value) :
  Z.of_nat k ≤ index →
  a !! Z.to_nat (index - Z.of_nat k) = Some (Some x) →
  (length (filter_from k (λ _ i, negb (Z.of_nat i =? index)%Z) a)
   < length a)%nat.
Proof.
  revert k. induction a as [|slot a IH]; intros k Hk Hx; [done|].
  pose proof (sublist_length _ _
    (filter_from_sublist (S k) (λ _ i, negb (Z.of_nat i =? index)) a)) as Hle.
  destruct (decide (Z.of_nat k = index)) as [<-|Hne].
  - rewrite Z.sub_diag in Hx. cbn in Hx. injection Hx as ->. cbn.
    rewrite Z.eqb_refl. cbn. lia.
  - replace (Z.to_nat (index - Z.of_nat k))
      with (S (Z.to_nat (index - Z.of_nat (S k)))) in Hx by lia.
    cbn in Hx. apply IH in Hx; [|lia].
    destruct slot as [y|]; cbn; [|lia].
    destruct (negb _); cbn; lia.
Qed.

(** X6. On any list, removal returns a list without holes that is a sublist
    of the former one, never longer and shorter when the position held an
    element; the other two lists and the scalar fields are as before. *)
Theorem removeEntry_packs (field : Kind.t) (index : Z) (formData : FormData) :
  let a := entries field formData in
  let formData' := PortfolioForm.removeEntry field index formData in
  let a' := entries field formData' in
  dense a'
  ∧ a' `sublist_of` a
  ∧ (length a' ≤ length a)%nat
  ∧ (∀ x, 0 ≤ index → a !! Z.to_nat index = Some (Some x) →
       (length a' < length a)%nat)
  ∧ (∀ field', field' ≠ field →
       entries field' formData' = entries field' formData)
  ∧ (∀ input, scalar input formData' = scalar input formData).
Proof.
  intros a formData' a'.
  assert (a' = filter_array (λ _ i, negb (Z.of_nat i =? index)) a) as ->.
  { subst a' formData'. unfold PortfolioForm.removeEntry.
    by rewrite entries_with_entries, decide_True. }
  unfold filter_array. split; [apply filter_from_dense|].
  split; [apply filter_from_sublist|].
  split; [apply sublist_length, filter_from_sublist|].
  split.
  { intros x Hpos Hx. apply (filter_from_shorter 0 index a x); [lia|].
    by rewrite Z.sub_0_r. }
  subst formData'. unfold PortfolioForm.removeEntry. split.
  - intros field' Hne. by rewrite entries_with_entries, decide_False.
  - intros input. apply scalar_with_entries.
Qed.


(** ** More on the skills parse *)

Lemma split_app (sep : N) (s t : jsstring) :
  split sep (s ++ sep :: t) = split sep s ++ split sep t.
Proof.
  induction s as [|c s IH]; cbn.
  - by rewrite N.eqb_refl.
  - destruct (c =? sep)%N; rewrite IH; [done|].
    pose proof (split_not_nil sep s). by destruct (split sep s).
Qed.

Lemma length_split (sep : N) (s : jsstring) :
  length (split sep s) = S (length (filter (λ c, c = sep) s)).
Proof.
  induction s as [|c s IH]; [done|]. cbn [split].
  destruct (N.eqb_spec c sep) as [->|Hne].
  - rewrite filter_cons_True by done. cbn [length]. by rewrite IH.
  - rewrite filter_cons_False by done. rewrite <- IH.
    pose proof (split_not_nil sep s). by destruct (split sep s).
Qed.

Lemma split_elem_of (sep c : N) (s p : jsstring) :
  p ∈ split sep s → c ∈ p → c ∈ s.
Proof.
  revert p. induction s as [|d s IH]; intros p; cbn.
  - intros ->%list_elem_of_singleton. done.
  - destruct (d =? sep)%N.
    + intros [->|Hp]%elem_of_cons Hc; [by apply elem_of_nil in Hc|].
      right. by eapply IH.
    + pose proof (split_not_nil sep s) as Hnil.
      destruct (split sep s) as [|q qs]; [done|].
      intros [->|Hp]%elem_of_cons Hc.
      * apply elem_of_cons in Hc as [->|Hc]; [by left|].
        right. apply (IH q); [by left|done].
      * right. apply (IH p); [by right|done].
Qed.

Lemma join_Forall (P : N → Prop) (sep : N) (ps : list jsstring) :
  P sep → Forall (Forall P) ps → Forall P (join sep ps).
Proof.
  intros Hsep. induction 1 as [|p ps Hp Hps IH]; [done|].
  destruct ps as [|q ps]; [done|]. rewrite join_cons by done.
  apply Forall_app. split; [done|]. by constructor.
Qed.

Lemma trimStart_nil (s : jsstring) :
  trimStart s = [] ↔ Forall (λ c, isWhiteSpace c = true) s.
Proof.
  induction s as [|c s IH]; cbn; [done|].
  destruct (isWhiteSpace c) eqn:Hc.
  - rewrite IH. split; [by constructor|by inversion 1].
  - split; [done|]. inversion 1; congruence.
Qed.

Lemma trim_nil (s : jsstring) :
  trim s = [] ↔ Forall (λ c, isWhiteSpace c = true) s.
Proof.
  split.
  - intros Hnil. destruct (trim_Trimmed s) as ((l & r & Hs & Hl & Hr) & _).
    rewrite Hnil in Hs. rewrite Hs. by apply Forall_app.
  - intros Hs. unfold trim. apply trimStart_nil in Hs. by rewrite Hs.
Qed.

Lemma filter_non_empty_nil (ps : list jsstring) :
  filter (λ p, p ≠ []) ps = [] ↔ Forall (λ p, p = []) ps.
Proof.
  induction ps as [|p ps IH]; [done|].
  destruct (decide (p = [])) as [->|Hne].
  - rewrite filter_cons_False by naive_solver. rewrite IH.
    split; [by constructor|by inversion 1].
  - rewrite filter_cons_True by done. split; [done|]. by inversion 1.
Qed.

(** X8. The skills parse is empty exactly when the string consists of white
    space and commas only; the empty string is such a string. *)
Theorem parseSkills_nil (s : jsstring) :
  PortfolioForm.parseSkills s = []
  ↔ Forall (λ c, isWhiteSpace c = true ∨ c = comma) s.
Proof.
  unfold PortfolioForm.parseSkills.
  rewrite filter_non_empty_nil, Forall_fmap. split.
  - intros Hall. rewrite <- (join_split comma s).
    apply join_Forall; [by right|].
    eapply Forall_impl; [done|]. intros p Hp. cbn in Hp.
    apply trim_nil in Hp. eapply Forall_impl; [done|]. by left.
  - intros Hs. apply Forall_forall. intros p Hp. cbn. apply trim_nil.
    apply Forall_forall. intros c Hc.
    rewrite Forall_forall in Hs.
    destruct (Hs c (split_elem_of comma c s p Hp Hc)) as [?| ->]; [done|].
    pose proof (split_no_sep comma s) as Hno. rewrite Forall_forall in Hno.
    by destruct (Hno p Hp).
Qed.

(** X9. The parse of two strings put together with a comma is the parse of
    the first followed by the parse of the second. *)
Theorem parseSkills_app (s t : jsstring) :
  PortfolioForm.parseSkills (s ++ comma :: t)
  = PortfolioForm.parseSkills s ++ PortfolioForm.parseSkills t.
Proof.
  unfold PortfolioForm.parseSkills.
  by rewrite split_app, map_app, filter_app.
Qed.

(** X10. A string gives at most one skill more than it has commas. *)
Theorem parseSkills_length (s : jsstring) :
  (length (PortfolioForm.parseSkills s)
   ≤ S (length (filter (λ c, c = comma) s)))%nat.
Proof.
  unfold PortfolioForm.parseSkills. rewrite <- length_split.
  etrans; [apply length_filter|]. by rewrite length_map.
Qed.

(** X11. The submitted record is the draft with its skills parsed: putting the
    raw string back gives the draft.  Each of its skills is non-empty, has no
    comma, and neither starts nor ends with white space. *)
Theorem handleSubmit_record (formData : FormData) :
  let data := PortfolioForm.handleSubmit formData in
  with_skills (skills formData) data = formData
  ∧ Forall (λ p, p ≠ [] ∧ (comma ∉ p)
                 ∧ (∀ c, head p = Some c → isWhiteSpace c = false)
                 ∧ (∀ c, last p = Some c → isWhiteSpace c = false))
      (skills data).
Proof.
  split; [by destruct formData|]. cbn.
  unfold PortfolioForm.parseSkills.
  apply Forall_forall. intros p [Hne Hin]%list_elem_of_filter.
  apply list_elem_of_fmap in Hin as (q & -> & Hq).
  destruct (trim_Trimmed q) as (Hsub & Hhd & Hlast).
  split; [done|]. split; [|done].
  intros Hc. apply (Trimmed_elem_of q) in Hc; [|apply trim_Trimmed].
  pose proof (split_no_sep comma (skills formData)) as Hall.
  rewrite Forall_forall in Hall. by apply (Hall q).
Qed.

(** ** More on the record store *)

Ltac step_cases Hstep Hmode :=
  unfold step in Hstep;
  match type of Hstep with
  | context [App.displayMode (app ?σ)] =>
      destruct (App.displayMode (app σ)) eqn:Hmode;
      destruct (form σ) as [formData|] eqn:?
  end;
  match type of Hstep with
  | context [match ?e with Change _ _ => _ | _ => _ end] => destruct e
  | _ => idtac
  end;
  try discriminate Hstep;
  repeat match type of Hstep with
         | (if ?b then _ else _) = _ =>
             destruct b eqn:?; try discriminate Hstep
         end;
  injection Hstep as <-.

(** X13. Only choosing a template changes the selected template: every other
    interaction, the two resets among them, keeps it.  Choosing a template
    changes neither the draft nor the record. *)
Theorem selectedTemplate_kept (e : Event) (σ σ' : System) :
  step e σ = Some σ' →
  App.selectedTemplate (app σ')
  = match e with
    | SelectTemplate template => template
    | _ => App.selectedTemplate (app σ)
    end
  ∧ (∀ template, e = SelectTemplate template →
       form σ' = form σ
       ∧ App.portfolioData (app σ') = App.portfolioData (app σ)).
Proof.
  intros Hstep. step_cases Hstep Hmode; (split; [done|]);
    intros template' [=]; subst.
  unfold commit. cbn.
  unfold App.displayMode in *. cbn.
  destruct (App.showFullPortfolio (app σ)), (App.portfolioData (app σ));
    done.
Qed.

Lemma selectedTemplate_kept_witness :
  ∃ σ', step Reset summary = Some σ'
        ∧ App.selectedTemplate (app σ') = str "template2".
Proof.
  destruct (step Reset summary) as [σ'|] eqn:Hstep;
    [|by vm_compute in Hstep].
  exists σ'. split; [done|].
  destruct (selectedTemplate_kept Reset summary σ' Hstep) as [-> _].
  vm_compute. reflexivity.
Defined.

Lemma displayMode_cases (s : App.State) :
  match App.displayMode s with
  | App.EDITING => App.portfolioData s = None
  | App.SUMMARY =>
      is_Some (App.portfolioData s) ∧ App.showFullPortfolio s = false
  | App.FULL => is_Some (App.portfolioData s) ∧ App.showFullPortfolio s = true
  end.
Proof.
  unfold App.displayMode.
  destruct (App.showFullPortfolio s), (App.portfolioData s); eauto.
Qed.

Lemma step_app_state (e : Event) (σ σ' : System) :
  step e σ = Some σ' →
  (App.showFullPortfolio (app σ) = true → is_Some (App.portfolioData (app σ))) →
  radio (App.selectedTemplate (app σ)) = true →
  (App.showFullPortfolio (app σ') = true
   → is_Some (App.portfolioData (app σ')))
  ∧ radio (App.selectedTemplate (app σ')) = true.
Proof.
  intros Hstep Hfull Hradio.
  pose proof (displayMode_cases (app σ)) as Hcases.
  step_cases Hstep Hmode; cbn; try done; try (split; [|done]);
    try (destruct Hcases as [? Hflag]; eauto; rewrite Hflag); done.
Qed.

(** X14. In every reachable state the full-page flag is set exactly in display
    mode FULL (it is never set without a record), and the selected template
    is one of the two the radio buttons offer. *)
Theorem reachable_app_state (σ : System) :
  reachable σ →
  (App.showFullPortfolio (app σ) = true ↔ App.displayMode (app σ) = App.FULL)
  ∧ (App.selectedTemplate (app σ) = str "template1"
     ∨ App.selectedTemplate (app σ) = str "template2").
Proof.
  intros Hσ.
  assert ((App.showFullPortfolio (app σ) = true
           → is_Some (App.portfolioData (app σ)))
          ∧ radio (App.selectedTemplate (app σ)) = true) as [Hfull Hradio].
  { induction Hσ as [|σ e σ' _ [IH1 IH2] Hstep]; [done|].
    by eapply step_app_state. }
  split.
  - unfold App.displayMode. split.
    + intros Hflag. destruct (Hfull Hflag) as [data ->]. by rewrite Hflag.
    + by destruct (App.showFullPortfolio (app σ)), (App.portfolioData (app σ)).
  - unfold radio in Hradio. apply orb_prop in Hradio as [H|H];
      apply bool_decide_eq_true in H; auto.
Qed.

Lemma reachable_app_state_witness :
  (App.showFullPortfolio (app afterSession) = true
   ↔ App.displayMode (app afterSession) = App.FULL)
  ∧ (App.selectedTemplate (app afterSession) = str "template1"
     ∨ App.selectedTemplate (app afterSession) = str "template2").
Proof. exact (reachable_app_state afterSession afterSession_reachable). Defined.

(** X15. In every reachable state that shows the card, reset clears the
    record, leaves the full-page flag unset and the selected template as it
    was, and leads to display mode EDITING with a new, empty draft. *)
Theorem reset_from_card (σ : System) :
  reachable σ →
  App.displayMode (app σ) = App.SUMMARY →
  ∃ σ',
    step Reset σ = Some σ'
    ∧ App.portfolioData (app σ') = None
    ∧ App.showFullPortfolio (app σ') = false
    ∧ App.selectedTemplate (app σ') = App.selectedTemplate (app σ)
    ∧ App.displayMode (app σ') = App.EDITING
    ∧ form σ' = Some PortfolioForm.initial.
Proof.
  intros Hm%reachable_mounted Hmode. unfold mounted in Hm.
  rewrite Hmode in Hm. eexists. unfold step. rewrite Hmode, Hm.
  split; [done|].
  pose proof (displayMode_cases (app σ)) as Hcases.
  rewrite Hmode in Hcases. destruct Hcases as [_ Hflag].
  unfold commit, App.displayMode. cbn. by rewrite Hflag.
Qed.

Lemma reset_from_card_witness :
  ∃ σ',
    step Reset summary = Some σ'
    ∧ App.portfolioData (app σ') = None
    ∧ App.showFullPortfolio (app σ') = false
    ∧ App.selectedTemplate (app σ') = App.selectedTemplate (app summary)
    ∧ App.displayMode (app σ') = App.EDITING
    ∧ form σ' = Some PortfolioForm.initial.
Proof.
  apply (reset_from_card summary summary_reachable).
  vm_compute. reflexivity.
Defined.

Lemma step_record (e : Event) (σ σ' : System) (data : PortfolioData) :
  step e σ = Some σ' →
  App.portfolioData (app σ') = Some data →
  App.portfolioData (app σ) = Some data
  ∨ ∃ formData, form σ = Some formData
                ∧ data = PortfolioForm.handleSubmit formData.
Proof.
  intros Hstep Hdata. step_cases Hstep Hmode; cbn in Hdata; eauto;
    try discriminate Hdata.
  injection Hdata as <-. eauto.
Qed.

(** X16. Every record a reachable state holds is the submission of a draft
    whose lists hold entries only; its skills are non-empty, free of commas
    and trimmed; and the full page renders it under the selected
    template. *)
Theorem held_record (σ : System) (data : PortfolioData) :
  reachable σ →
  App.portfolioData (app σ) = Some data →
  (∃ formData, data = PortfolioForm.handleSubmit formData
               ∧ entries_only formData)
  ∧ Forall skill_entry (skills data)
  ∧ is_Some (PortfolioPage data (App.selectedTemplate (app σ))).
Proof.
  intros Hσ Hdata.
  assert (∃ formData, data = PortfolioForm.handleSubmit formData
                      ∧ entries_only formData) as Hsub.
  { clear -Hσ Hdata. revert data Hdata.
    induction Hσ as [|σ e σ' Hσ IH Hstep]; intros data Hdata; [done|].
    destruct (step_record e σ σ' data Hstep Hdata)
      as [Hold|(formData & Hform & ->)]; [by apply IH|].
    exists formData. split; [done|].
    by apply (reachable_entries_only σ Hσ). }
  split; [done|]. destruct Hsub as (formData & -> & Hent). split.
  - apply parseSkills_entries.
  - destruct (reachable_renders σ _ Hσ Hdata) as [H1 H2].
    unfold PortfolioPage. by case_bool_decide.
Qed.

Lemma held_record_witness :
  ∃ data,
    App.portfolioData (app afterSession) = Some data
    ∧ skills data = [str "Rocq"; str "TypeScript"]
    ∧ Forall skill_entry (skills data)
    ∧ is_Some (PortfolioPage data (App.selectedTemplate (app afterSession))).
Proof.
  destruct (App.portfolioData (app afterSession)) as [data|] eqn:Hdata;
    [|by vm_compute in Hdata].
  exists data. split; [done|].
  destruct (held_record afterSession data afterSession_reachable Hdata)
    as (_ & Hskills & Hpage).
  split; [|done].
  vm_compute in Hdata. injection Hdata as <-. reflexivity.
Defined.

(** X17. Whatever the user does, the lists of the draft and of the record
    hold entries only: they have no holes and no [undefined]. *)
Theorem reachable_lists_hold_entries (σ : System) (field : Kind.t) :
  reachable σ →
  (∀ formData, form σ = Some formData →
     objects (entries field formData) ∧ dense (entries field formData))
  ∧ (∀ data, App.portfolioData (app σ) = Some data →
       objects (entries field data) ∧ dense (entries field data)).
Proof.
  intros [Hform Hdata]%reachable_entries_only. split.
  - intros formData Hf. split; [|apply objects_dense]; by apply Hform.
  - intros data Hd. split; [|apply objects_dense]; by apply Hdata.
Qed.

Lemma reachable_lists_hold_entries_witness :
  (∀ formData, form drafting = Some formData →
     objects (entries Kind.experience formData)
     ∧ dense (entries Kind.experience formData))
  ∧ (∀ data, App.portfolioData (app drafting) = Some data →
       objects (entries Kind.experience data)
       ∧ dense (entries Kind.experience data)).
Proof.
  exact (reachable_lists_hold_entries drafting Kind.experience
           drafting_reachable).
Defined.

(** ** More on the renderer *)

(** X18. The source of the picture is never empty, and neither is the source
    an image falls back to when it fails to load.  Without a profile picture
    the source is the fallback from the start: the placeholder address
    followed by the first code unit of the name, or by [?] when the name is
    empty.  With one, the source is the profile picture. *)
Theorem pictureSrc_never_empty (placeholder : string) (data : PortfolioData) :
  pictureSrc placeholder data ≠ []
  ∧ fallbackSrc placeholder data ≠ []
  ∧ (profilePicture data = [] →
     pictureSrc placeholder data = fallbackSrc placeholder data)
  ∧ (profilePicture data ≠ [] →
     pictureSrc placeholder data = profilePicture data)
  ∧ ∃ c, fallbackSrc placeholder data = str placeholder ++ [c]
         ∧ head (name data ++ str "?") = Some c.
Proof.
  unfold pictureSrc, fallbackSrc, initialOf.
  assert (∀ l (c : N), l ++ [c] ≠ []) as Hne by (by intros []).
  destruct (profilePicture data) as [|p ps], (name data) as [|c cs]; cbn;
    repeat split; try done; try apply Hne; eauto.
Qed.

Lemma map_from_None (render : nat → object → node) (k : nat) (a : array) :
  map_from k (entry render) a = None ↔ Some undefined ∈ a.
Proof.
  revert k. induction a as [|[[|o]|] a IH]; intros k; cbn.
  - split; [done|by intros ?%elem_of_nil].
  - split; [by left|done].
  - destruct (map_from (S k) (entry render) a) as [rest|] eqn:Hrest; cbn.
    + split; [done|]. intros [?|Hin]%elem_of_cons; [done|].
      apply (IH (S k)) in Hin. congruence.
    + split; [|done]. intros _. right. by apply (IH (S k)).
  - rewrite (IH (S k)). split; [by right|].
    by intros [?|?]%elem_of_cons.
Qed.

Lemma listSection_None (h : string) (field : Kind.t)
    (render : nat → object → node) (data : PortfolioData) :
  listSection h field render data = None
  ↔ Some undefined ∈ entries field data.
Proof.
  unfold listSection, map_array.
  destruct (entries field data) as [|slot a] eqn:Ha; cbn [length Nat.ltb Nat.leb].
  - split; [done|by intros ?%elem_of_nil].
  - rewrite <- (map_from_None render 0).
    destruct (map_from 0 (entry render) (slot :: a)); cbn; naive_solver.
Qed.

(** X19. The full page fails to render exactly when one of the three lists
    holds [undefined], and then under either template. *)
Theorem templates_fail_together (data : PortfolioData) (template : jsstring) :
  (Template1 data = None ↔ ∃ field, Some undefined ∈ entries field data)
  ∧ (Template2 data = None ↔ Template1 data = None)
  ∧ (PortfolioPage data template = None ↔ Template1 data = None).
Proof.
  assert (∀ r1 r2 (k : list node → list node → list node → option node),
            (∀ s1 s2 s3, is_Some (k s1 s2 s3)) →
            (s1 ← listSection "Experience" Kind.experience r1 data;
             s2 ← listSection "Education" Kind.education r2 data;
             s3 ← listSection "Projects" Kind.projects projectCard data;
             k s1 s2 s3) = None
            ↔ ∃ field, Some undefined ∈ entries field data) as Hgen.
  { intros r1 r2 k Hk.
    pose proof (listSection_None "Experience" Kind.experience r1 data) as H1.
    pose proof (listSection_None "Education" Kind.education r2 data) as H2.
    pose proof (listSection_None "Projects" Kind.projects projectCard data)
      as H3.
    destruct (listSection "Experience" _ _ _) as [s1|],
      (listSection "Education" _ _ _) as [s2|],
      (listSection "Projects" _ _ _) as [s3|]; cbn;
      try (split; [intros _|done];
           first [ exists Kind.experience; by apply H1
                 | exists Kind.education; by apply H2
                 | exists Kind.projects; by apply H3 ]).
    split.
    - intros Hnone. destruct (Hk s1 s2 s3) as [? Hsome]. congruence.
    - intros [[] Hin]; [apply H1 in Hin|apply H2 in Hin|apply H3 in Hin];
        done. }
  assert (Template1 data = None
          ↔ ∃ field, Some undefined ∈ entries field data) as H1
    by (apply Hgen; eauto).
  assert (Template2 data = None
          ↔ ∃ field, Some undefined ∈ entries field data) as H2
    by (apply Hgen; eauto).
  split; [done|]. split; [by rewrite H1, H2|].
  unfold PortfolioPage. case_bool_decide; [by rewrite H1, H2|done].
Qed.

Lemma skillsShown_El (tag : Tag.t) (children : list node) :
  skillsShown (El tag children) = concat (map skillsShown children).
Proof. done. Qed.

Lemma skillTags_skillsShown (data : PortfolioData) :
  concat (map skillsShown (skillTags data)) = skills data.
Proof.
  unfold skillTags.
  assert (∀ (l : list jsstring) (g : nat → nat),
            concat (map skillsShown
              (imap (λ index skill,
                       El Tag.span [Show (Skill (g index)) (Some skill)]) l))
            = l) as Himap.
  { induction l as [|s l IH]; intros g; [done|]. cbn. f_equal.
    apply (IH (g ∘ S)). }
  apply (Himap (skills data) id).
Qed.

Lemma children_when_nil {X} (f : node → list X) (c : bool) (n : node) :
  f n = [] → concat (map f (when c [n])) = [].
Proof. intros Hn. rewrite children_when, Hn. by destruct c. Qed.

Lemma listSection_skillsShown (h : string) (field : Kind.t)
    (render : nat → object → node) (data : PortfolioData) (sect : list node) :
  listSection h field render data = Some sect →
  (∀ i o, skillsShown (render i o) = []) →
  concat (map skillsShown sect) = [].
Proof.
  unfold listSection, map_array. intros Hsect Hnil.
  destruct (0 <? length (entries field data))%nat.
  - destruct (map_from _ _ _) as [children|] eqn:Hmap; [|done].
    cbn in Hsect. injection Hsect as <-. cbn.
    by rewrite (map_from_nil skillsShown render 0 _ children Hmap Hnil).
  - by injection Hsect as <-.
Qed.

Ltac template_skillsShown R1 R2 :=
  intros Ht;
  destruct (listSection "Experience" _ _ _) as [s1|] eqn:H1; [|done];
  destruct (listSection "Education" _ _ _) as [s2|] eqn:H2; [|done];
  destruct (listSection "Projects" _ _ _) as [s3|] eqn:H3; [|done];
  cbn [mbind option_bind] in Ht; injection Ht as <-;
  assert (∀ i o, skillsShown (R1 i o) = []) as Hr1 by no_headings;
  assert (∀ i o, skillsShown (R2 i o) = []) as Hr2 by no_headings;
  assert (∀ i o, skillsShown (projectCard i o) = []) as Hr3 by no_headings;
  pose proof (listSection_skillsShown _ _ _ _ _ H1 Hr1) as H1';
  pose proof (listSection_skillsShown _ _ _ _ _ H2 Hr2) as H2';
  pose proof (listSection_skillsShown _ _ _ _ _ H3 Hr3) as H3';
  unfold contact;
  repeat (progress
    rewrite ?skillsShown_El, ?children_nil, ?children_cons, ?children_app,
      ?(children_when_nil skillsShown) by reflexivity);
  rewrite children_when, H1', H2', H3';
  rewrite ?skillsShown_El, ?children_nil, ?children_cons, ?skillTags_skillsShown;
  cbn [skillsShown show concat map app];
  rewrite ?skillTags_skillsShown;
  match goal with
  | |- _ = skills ?d => destruct (skills d); cbn; by rewrite ?app_nil_r
  end.

(** X20. Under either template the full page displays the skills of the
    record, each once and in the order of the record. *)
Theorem templates_list_skills (data : PortfolioData) (template : jsstring)
    (t : node) :
  PortfolioPage data template = Some t → skillsShown t = skills data.
Proof.
  unfold PortfolioPage. case_bool_decide.
  - unfold Template2.
    template_skillsShown Template2_experience Template2_education.
  - unfold Template1.
    template_skillsShown Template1_experience Template1_education.
Qed.

Lemma templates_list_skills_witness :
  ∃ t, PortfolioPage sample (str "template2") = Some t
       ∧ skillsShown t = [str "Rocq"; str "OCaml"].
Proof.
  destruct (PortfolioPage sample (str "template2")) as [t|] eqn:Ht;
    [|by vm_compute in Ht].
  exists t. split; [done|].
  rewrite (templates_list_skills sample (str "template2") t Ht).
  vm_compute. reflexivity.
Defined.

(** ** The form *)

Lemma map_from_fields (field : Kind.t) (k : nat) (a : array)
    (fields : list (list control)) (c : control) :
  map_from k (fieldsOf field) a = Some fields →
  c ∈ concat fields
  ↔ ∃ i o, a !! i = Some (Some (obj o))
           ∧ c ∈ entryFields field (k + i)%nat o.
Proof.
  revert k fields.
  induction a as [|[[|o]|] a IH]; intros k fields; cbn.
  - intros [= <-]. cbn. split; [by intros ?%elem_of_nil|].
    by intros (i & o & ? & _).
  - done.
  - destruct (map_from (S k) (fieldsOf field) a) as [rest|] eqn:Hrest;
      [|done].
    cbn. intros [= <-]. cbn. rewrite elem_of_app, (IH (S k) rest) by done.
    split.
    + intros [Hx|(i & o' & Hi & Hx)].
      * exists 0%nat, o. by rewrite Nat.add_0_r.
      * exists (S i), o'. by rewrite Nat.add_succ_r.
    + intros ([|i] & o' & Hi & Hx); cbn in Hi.
      * injection Hi as <-. left. by rewrite Nat.add_0_r in Hx.
      * right. exists i, o'. by rewrite Nat.add_succ_r in Hx.
  - intros Hrest. rewrite (IH (S k) fields) by done. split.
    + intros (i & o & Hi & Hx). exists (S i), o. by rewrite Nat.add_succ_r.
    + intros ([|i] & o & Hi & Hx); cbn in Hi; [done|].
      exists i, o. by rewrite Nat.add_succ_r in Hx.
Qed.

Lemma map_from_fields_None (field : Kind.t) (k : nat) (a : array) :
  map_from k (fieldsOf field) a = None ↔ Some undefined ∈ a.
Proof.
  revert k. induction a as [|[[|o]|] a IH]; intros k; cbn.
  - split; [done|by intros ?%elem_of_nil].
  - split; [by left|done].
  - destruct (map_from (S k) (fieldsOf field) a) as [rest|] eqn:Hrest; cbn.
    + split; [done|]. intros [?|Hin]%elem_of_cons; [done|].
      apply (IH (S k)) in Hin. congruence.
    + split; [|done]. intros _. right. by apply (IH (S k)).
  - rewrite (IH (S k)). split; [by right|].
    by intros [?|?]%elem_of_cons.
Qed.

Lemma listControls_elem_of (field : Kind.t) (add : string)
    (formData : FormData) (cs : list control) (c : control) :
  listControls field add formData = Some cs →
  c ∈ cs
  ↔ (∃ i o, entries field formData !! i = Some (Some (obj o))
            ∧ c ∈ entryFields field i o)
    ∨ c = Button add (AddEntry field).
Proof.
  unfold listControls, map_array.
  destruct (map_from 0 _ _) as [fields|] eqn:Hmap; [|done].
  cbn. intros [= <-].
  rewrite elem_of_app, list_elem_of_singleton.
  by rewrite (map_from_fields field 0 _ fields c Hmap).
Qed.

Lemma listControls_None (field : Kind.t) (add : string) (formData : FormData) :
  listControls field add formData = None
  ↔ Some undefined ∈ entries field formData.
Proof.
  unfold listControls, map_array.
  rewrite <- (map_from_fields_None field 0).
  by destruct (map_from 0 _ _).
Qed.

Lemma controls_elem_of (template : jsstring) (formData : FormData)
    (cs : list control) (c : control) :
  controls template formData = Some cs →
  c ∈ cs
  ↔ c ∈ scalarControls template formData
    ∨ (∃ field i o, entries field formData !! i = Some (Some (obj o))
                    ∧ c ∈ entryFields field i o)
    ∨ (∃ field, c = Button (addLabel field) (AddEntry field))
    ∨ c = SubmitButton "Generate Portfolio".
Proof.
  unfold controls. intros Hcs.
  destruct (listControls Kind.experience _ _) as [c1|] eqn:H1; [|done].
  destruct (listControls Kind.education _ _) as [c2|] eqn:H2; [|done].
  destruct (listControls Kind.projects _ _) as [c3|] eqn:H3; [|done].
  cbn [mbind option_bind] in Hcs. apply (inj Some) in Hcs. subst cs.
  rewrite !elem_of_app, list_elem_of_singleton.
  rewrite (listControls_elem_of _ _ _ _ c H1),
    (listControls_elem_of _ _ _ _ c H2), (listControls_elem_of _ _ _ _ c H3).
  split.
  - intros [?|[[?|?]|[[?|?]|[[?|?]|?]]]]; eauto;
      try (right; left; eexists; done);
      right; right; left;
      [exists Kind.experience|exists Kind.education|exists Kind.projects];
      done.
  - intros [?|[(field & Hf)|[(field & Hf)|?]]]; eauto 10;
      destruct field; eauto 10.
Qed.

Lemma controls_None (template : jsstring) (formData : FormData) :
  controls template formData = None
  ↔ ∃ field, Some undefined ∈ entries field formData.
Proof.
  unfold controls.
  pose proof (listControls_None Kind.experience "Add Experience" formData)
    as H1.
  pose proof (listControls_None Kind.education "Add Education" formData)
    as H2.
  pose proof (listControls_None Kind.projects "Add Project" formData) as H3.
  destruct (listControls Kind.experience _ _),
    (listControls Kind.education _ _), (listControls Kind.projects _ _);
    cbn;
    try (split; [intros _|done];
         first [ exists Kind.experience; by apply H1
               | exists Kind.education; by apply H2
               | exists Kind.projects; by apply H3 ]).
  split; [done|].
  intros [[] Hin]; [apply H1 in Hin|apply H2 in Hin|apply H3 in Hin]; done.
Qed.

Lemma controls_is_Some (template : jsstring) (formData : FormData) :
  entries_only formData → is_Some (controls template formData).
Proof.
  intros Hent.
  destruct (controls template formData) eqn:Hc; [by eexists|].
  apply controls_None in Hc as [field Hin].
  specialize (Hent field). unfold objects in Hent.
  rewrite Forall_forall in Hent. by destruct (Hent _ Hin).
Qed.

(** X22. The form fails to render exactly when one of the three lists of the
    draft holds [undefined]; it renders every draft whose lists hold entries
    only, and so every draft the user can reach. *)
Theorem controls_defined (σ : System) (template : jsstring)
    (formData : FormData) :
  (controls template formData = None
   ↔ ∃ field, Some undefined ∈ entries field formData)
  ∧ (entries_only formData → is_Some (controls template formData))
  ∧ (reachable σ → form σ = Some formData →
     is_Some (controls template formData)).
Proof.
  split; [apply controls_None|]. split; [apply controls_is_Some|].
  intros [Hform _]%reachable_entries_only Hf.
  by apply controls_is_Some, Hform.
Qed.

Lemma entryFields_offer (form : list control) (field : Kind.t) (i : nat)
    (o : object) (c : control) (e : Event) :
  c ∈ entryFields field i o →
  offers form c e →
  e = RemoveEntry field (Z.of_nat i)
  ∨ ∃ key value, e = ArrayChange (Z.of_nat i) field key value
                 ∧ key ∈ layout field.
Proof.
  intros Hc He.
  destruct field; cbn in Hc; set_unfold;
    repeat destruct Hc as [Hc|Hc]; try done; subst c; cbn in He;
    try (by left); destruct He as [v ->]; right; eexists _, _;
    (split; [done|]); cbn; set_solver.
Qed.

Lemma rendered_lookup (field : Kind.t) (index : Z) (formData : FormData) :
  rendered field index formData = true
  ↔ 0 ≤ index
    ∧ ∃ o, entries field formData !! Z.to_nat index = Some (Some (obj o)).
Proof.
  unfold rendered. rewrite andb_true_iff, Z.leb_le.
  destruct (entries field formData !! Z.to_nat index) as [[[|o]|]|];
    naive_solver.
Qed.

Ltac find_control :=
  (apply list_elem_of_here) + (apply list_elem_of_further; find_control).

Ltac offering :=
  solve [eexists; split; [find_control | cbn; solve [eauto]]].

Lemma entryFields_satisfied (field : Kind.t) (i : nat) (o : object)
    (c : control) :
  c ∈ entryFields field i o → satisfied c = true.
Proof.
  intros Hc. destruct field; cbn in Hc; set_unfold;
    repeat destruct Hc as [Hc|Hc]; try done; by subst c.
Qed.

(** Of the controls of the form only the Email input can fail validation. *)
Lemma controls_checkValidity (template : jsstring) (formData : FormData)
    (cs : list control) :
  controls template formData = Some cs →
  checkValidity cs = submittable formData.
Proof.
  intros Hcs. apply Bool.eq_iff_eq_true. unfold checkValidity.
  rewrite forallb_forall. split.
  - intros Hall.
    apply (Hall (InputField "Email" "email" (email formData)
                   (Change Input.email) InputType.email)).
    apply list_elem_of_In, (controls_elem_of _ _ _ _ Hcs). left.
    unfold scalarControls. find_control.
  - intros Hsub c Hc%list_elem_of_In.
    apply (controls_elem_of _ _ _ c Hcs) in Hc
      as [Hc|[(field & i & o & Hi & Hc)|[[field ->]| ->]]]; [| |done..].
    + unfold scalarControls in Hc. set_unfold.
      repeat destruct Hc as [Hc|Hc]; try done; by subst c.
    + by eapply entryFields_satisfied.
Qed.

(** X23. While editing, the events the controls of the rendered form can
    raise are exactly the events the application accepts that name a field
    the form has an input for.  The submit button is among them exactly when
    every control of the form satisfies its constraints, that is when the
    Email input has no type mismatch. *)
Theorem controls_offer_steps (σ : System) (formData : FormData)
    (cs : list control) (e : Event) :
  App.displayMode (app σ) = App.EDITING →
  form σ = Some formData →
  controls (App.selectedTemplate (app σ)) formData = Some cs →
  ((∃ c, c ∈ cs ∧ offers cs c e) ↔ is_Some (step e σ) ∧ keyed e)
  ∧ (checkValidity cs = true
     ↔ typeMismatch InputType.email (email formData) = false).
Proof.
  intros Hmode Hform Hcs.
  pose proof (controls_checkValidity _ _ _ Hcs) as Hvalid.
  split; cycle 1.
  { rewrite Hvalid. unfold submittable.
    by destruct (typeMismatch InputType.email (email formData)). }
  unfold step. rewrite Hmode, Hform. split.
  - intros (c & Hc & He).
    apply (controls_elem_of _ _ _ c Hcs) in Hc
      as [Hc|[(field & i & o & Hi & Hc)|[[field ->]| ->]]].
    + unfold scalarControls in Hc. set_unfold.
      repeat destruct Hc as [Hc|Hc]; try done; subst c; cbn in He;
        try (match type of He with ex _ => destruct He as [v He] end);
        subst e; cbn [keyed];
        try (split; [by eexists|done]).
    + assert (rendered field (Z.of_nat i) formData = true) as Hr.
      { apply rendered_lookup. rewrite Nat2Z.id. split; [lia|eauto]. }
      destruct (entryFields_offer cs field i o c e Hc He)
        as [->|(key & v & -> & Hkey)]; cbn; rewrite Hr;
        (split; [by eexists|done]).
    + cbn in He. subst e. split; [by eexists|done].
    + destruct He as [-> He]. rewrite <- Hvalid, He.
      split; [by eexists|done].
  - intros [Hstep Hkey].
    assert (∀ c, c ∈ scalarControls (App.selectedTemplate (app σ)) formData
                 → c ∈ cs) as Hscalar.
    { intros c Hc. apply (controls_elem_of _ _ _ c Hcs). by left. }
    assert (∀ field i o c,
              entries field formData !! i = Some (Some (obj o)) →
              c ∈ entryFields field i o → c ∈ cs) as Hentry.
    { intros field i o c Hi Hc. apply (controls_elem_of _ _ _ c Hcs).
      right. left. eauto. }
    destruct e as [input v|index field subField v|field|field index
                  |template| | | |]; try by destruct Hstep.
    + assert (∃ c, c ∈ scalarControls (App.selectedTemplate (app σ)) formData
                   ∧ offers cs c (Change input v)) as (c & Hc & He)
        by (unfold scalarControls; destruct input; offering).
      eauto.
    + destruct (rendered field index formData) eqn:Hr; [|by destruct Hstep].
      apply rendered_lookup in Hr as [Hpos [o Ho]]. cbn in Hkey.
      assert (∃ c, c ∈ entryFields field (Z.to_nat index) o
                   ∧ offers cs c
                       (ArrayChange (Z.of_nat (Z.to_nat index)) field
                          subField v)) as (c & Hc & He).
      { destruct field, subField;
          try (exfalso; clear -Hkey; set_solver);
          cbv [entryFields experienceFields educationFields projectFields];
          offering. }
      rewrite Z2Nat.id in He by done. eauto.
    + exists (Button (addLabel field) (AddEntry field)). split; [|done].
      apply (controls_elem_of _ _ _ _ Hcs). right. right. left. eauto.
    + destruct (rendered field index formData) eqn:Hr; [|by destruct Hstep].
      apply rendered_lookup in Hr as [Hpos [o Ho]].
      assert (∃ c, c ∈ entryFields field (Z.to_nat index) o
                   ∧ offers cs c
                       (RemoveEntry field (Z.of_nat (Z.to_nat index))))
        as (c & Hc & He).
      { destruct field;
          cbv [entryFields experienceFields educationFields projectFields];
          offering. }
      rewrite Z2Nat.id in He by done. eauto.
    + destruct (radio template) eqn:Hr; [|by destruct Hstep].
      assert (∃ c, c ∈ scalarControls (App.selectedTemplate (app σ)) formData
                   ∧ offers cs c (SelectTemplate template))
        as (c & Hc & He).
      { unfold radio in Hr. apply orb_prop in Hr as [Hr|Hr];
          apply bool_decide_eq_true in Hr; subst template;
          unfold scalarControls; offering. }
      eauto.
    + exists (SubmitButton "Generate Portfolio"). split.
      * apply (controls_elem_of _ _ _ _ Hcs). by repeat right.
      * split; [done|]. rewrite Hvalid.
        by destruct (submittable formData); [|destruct Hstep].
Qed.

Lemma controls_offer_steps_witness :
  let e := ArrayChange 0 Kind.experience Key.company (str "Corp") in
  ((∃ c, c ∈ draftControls ∧ offers draftControls c e)
   ↔ is_Some (step e drafting) ∧ keyed e)
  ∧ (checkValidity draftControls = true
     ↔ typeMismatch InputType.email (email draft) = false)
  ∧ ¬ ∃ c, c ∈ mistypedControls ∧ offers mistypedControls c Submit.
Proof.
  intros e.
  destruct (controls_offer_steps drafting draft draftControls e)
    as [Hoffers Hvalid]; [vm_compute; reflexivity..|].
  split; [done|]. split; [done|]. intros Hoffer.
  destruct (controls_offer_steps mistyped
              (default PortfolioForm.initial (form mistyped))
              mistypedControls Submit)
    as [Hiff _]; [vm_compute; reflexivity..|].
  apply Hiff in Hoffer as [[σ' Hstep] _]. by vm_compute in Hstep.
Defined.

(** X24. Every position the rendered form passes to the positional update
    or to removal is inside the list and holds an entry: the form never
    updates or removes out of range. *)
Theorem controls_offer_in_range (template : jsstring) (formData : FormData)
    (cs : list control) (c : control) (e : Event) :
  controls template formData = Some cs →
  c ∈ cs →
  offers cs c e →
  match e with
  | ArrayChange index field _ _ | RemoveEntry field index =>
      0 ≤ index < Z.of_nat (length (entries field formData))
      ∧ ∃ o, entries field formData !! Z.to_nat index = Some (Some (obj o))
  | _ => True
  end.
Proof.
  intros Hcs Hc He.
  apply (controls_elem_of _ _ _ c Hcs) in Hc
    as [Hc|[(field & i & o & Hi & Hc)|[[field ->]| ->]]].
  - unfold scalarControls in Hc. set_unfold.
    repeat destruct Hc as [Hc|Hc]; try done; subst c; cbn in He;
      try (match type of He with ex _ => destruct He as [v He] end);
      by subst e.
  - pose proof (lookup_lt_Some _ _ _ Hi) as Hlt.
    destruct (entryFields_offer cs field i o c e Hc He)
      as [->|(key & v & -> & Hkey)];
      rewrite Nat2Z.id; (split; [lia|eauto]).
  - cbn in He. by subst e.
  - by destruct He as [-> _].
Qed.

Lemma controls_offer_in_range_witness :
  0 ≤ 0 < Z.of_nat (length (entries Kind.experience draft))
  ∧ ∃ o, entries Kind.experience draft !! Z.to_nat 0 = Some (Some (obj o)).
Proof.
  apply (controls_offer_in_range (App.selectedTemplate (app drafting)) draft
           draftControls
           (Button "Remove Experience" (RemoveEntry Kind.experience 0))
           (RemoveEntry Kind.experience 0)).
  - vm_compute. reflexivity.
  - apply list_elem_of_lookup. exists 14%nat. vm_compute. reflexivity.
  - reflexivity.
Defined.

Lemma listControls_handleChange (field : Kind.t) (add : string)
    (input : Input.t) (v : jsstring) (formData : FormData) :
  listControls field add (PortfolioForm.handleChange input v formData)
  = listControls field add formData.
Proof.
  unfold listControls, PortfolioForm.handleChange.
  by rewrite entries_with_scalar.
Qed.

Lemma orEmpty_insert (o : object) (key : Key.t) (w : jsstring) :
  orEmpty (<[key := w]> o) key = w.
Proof. unfold orEmpty. by rewrite lookup_insert_eq. Qed.

(** X25. Typing a value into a text control of the form is accepted, leaves
    the state of [App] alone, and the form rendered next has the same control
    displaying the value typed. *)
Theorem typed_value_displayed (σ : System) (formData : FormData)
    (cs : list control) (c : control) (onChange : jsstring → Event)
    (w : jsstring) :
  App.displayMode (app σ) = App.EDITING →
  form σ = Some formData →
  entries_only formData →
  controls (App.selectedTemplate (app σ)) formData = Some cs →
  c ∈ cs →
  onChangeOf c = Some onChange →
  ∃ σ' formData' cs',
    step (onChange w) σ = Some σ'
    ∧ app σ' = app σ
    ∧ form σ' = Some formData'
    ∧ controls (App.selectedTemplate (app σ')) formData' = Some cs'
    ∧ displaying w c ∈ cs'.
Proof.
  intros Hmode Hform Hent Hcs Hc Hon. unfold step. rewrite Hmode, Hform.
  apply (controls_elem_of _ _ _ c Hcs) in Hc
    as [Hc|[(field & i & o & Hi & Hc)|[[field ->]| ->]]]; [| |done..].
  - assert (∃ input, onChange = Change input
                     ∧ displaying w c
                       ∈ scalarControls (App.selectedTemplate (app σ))
                           (PortfolioForm.handleChange input w formData))
      as (input & -> & Hw).
    { unfold scalarControls in Hc. set_unfold in Hc.
      repeat destruct Hc as [Hc|Hc]; try done; subst c; cbn in Hon;
        try discriminate Hon; injection Hon as <-;
        eexists; (split; [reflexivity|]);
        unfold scalarControls, PortfolioForm.handleChange;
        cbn [displaying]; find_control. }
    destruct (controls_is_Some (App.selectedTemplate (app σ))
                (PortfolioForm.handleChange input w formData))
      as [cs' Hcs']; [by apply handleChange_entries_only|].
    eexists _, _, cs'. split; [done|]. split; [done|]. split; [done|].
    split; [done|]. apply (controls_elem_of _ _ _ _ Hcs'). by left.
  - assert (rendered field (Z.of_nat i) formData = true) as Hr.
    { apply rendered_lookup. rewrite Nat2Z.id. split; [lia|eauto]. }
    assert (∃ key, onChange = ArrayChange (Z.of_nat i) field key
                   ∧ displaying w c ∈ entryFields field i (<[key := w]> o))
      as (key & -> & Hw).
    { destruct field; cbn in Hc; set_unfold in Hc;
        repeat destruct Hc as [Hc|Hc]; try done; subst c; cbn in Hon;
        try discriminate Hon; injection Hon as <-;
        eexists; (split; [reflexivity|]);
        cbv [entryFields experienceFields educationFields projectFields
             displaying];
        rewrite orEmpty_insert; find_control. }
    rewrite Hr.
    set (formData' :=
           PortfolioForm.handleArrayChange (Z.of_nat i) field key w formData).
    destruct (controls_is_Some (App.selectedTemplate (app σ)) formData')
      as [cs' Hcs']; [by apply handleArrayChange_entries_only|].
    eexists _, formData', cs'. split; [done|]. split; [done|].
    split; [done|]. split; [done|].
    apply (controls_elem_of _ _ _ _ Hcs'). right. left.
    exists field, i, (<[key := w]> o). split; [|done].
    pose proof (lookup_lt_Some _ _ _ Hi) as Hlt.
    subst formData'. rewrite handleArrayChange_inside.
    + rewrite entries_with_entries, decide_True by done.
      rewrite (at_index_lookup _ _ (obj o)) by (lia || by rewrite Nat2Z.id).
      by rewrite Nat2Z.id, list_lookup_insert_eq.
    + apply objects_dense, Hent.
    + lia.
Qed.

Lemma typed_value_displayed_witness :
  let c :=
    InputField "Job Title" (indexed "exp-title-" 0) (str "Engineer")
      (ArrayChange 0 Kind.experience Key.title) InputType.text in
  ∃ σ' formData' cs',
    step (ArrayChange 0 Kind.experience Key.title (str "Lead")) drafting
    = Some σ'
    ∧ app σ' = app drafting
    ∧ form σ' = Some formData'
    ∧ controls (App.selectedTemplate (app σ')) formData' = Some cs'
    ∧ displaying (str "Lead") c ∈ cs'.
Proof.
  intros c.
  assert (form drafting = Some draft) as Hform by (vm_compute; reflexivity).
  apply (typed_value_displayed drafting draft draftControls c
           (ArrayChange 0 Kind.experience Key.title) (str "Lead")).
  - vm_compute. reflexivity.
  - done.
  - by apply (reachable_entries_only drafting drafting_reachable).
  - vm_compute. reflexivity.
  - apply list_elem_of_lookup. exists 15%nat. vm_compute. reflexivity.
  - reflexivity.
Defined.

(** ** Witnesses of the earlier lemmas *)

Lemma mistyped_reachable : reachable mistyped.
Proof.
  apply (run_reachable [Change Input.email (str "not-an-email")]
           initialSystem); [constructor|].
  vm_compute. reflexivity.
Qed.

Lemma transitions_enabled_witness :
  is_Some (step BackToForm afterSession)
  ∧ step Submit mistyped = None
  ∧ is_Some (σ' ← step (Change Input.email []) mistyped; step Submit σ').
Proof.
  split.
  - pose proof (transitions_enabled afterSession afterSession_reachable) as H.
    assert (App.displayMode (app afterSession) = App.FULL) as Hmode
      by (vm_compute; reflexivity).
    rewrite Hmode in H. exact H.
  - pose proof (transitions_enabled mistyped mistyped_reachable) as H.
    assert (App.displayMode (app mistyped) = App.EDITING) as Hmode
      by (vm_compute; reflexivity).
    rewrite Hmode in H. destruct H as (formData & Hform & Hiff & Hclear).
    split; [|done].
    destruct (step Submit mistyped) as [σ'|] eqn:Hstep; [|done].
    assert (typeMismatch InputType.email (email formData) = false) as Hvalid
      by (apply Hiff; by eexists).
    vm_compute in Hform. injection Hform as <-.
    by vm_compute in Hvalid.
Defined.

Lemma social_caption_witness :
  ∃ t1 t2,
    Template1 sample = Some t1
    ∧ Template2 sample = Some t2
    ∧ "Social"%string ∈ headings t1
    ∧ "Social"%string ∉ headings t2.
Proof.
  destruct (Template1 sample) as [t1|] eqn:H1; [|by vm_compute in H1].
  destruct (Template2 sample) as [t2|] eqn:H2; [|by vm_compute in H2].
  exists t1, t2. split; [done|]. split; [done|].
  exact (social_caption sample t1 t2 H1 H2).
Defined.
